(** * The Noot value runtime ([clibs/noot.h]): a shallow embedding

    The runtime is one C header.  Its values are a tagged union
    ([NootValue]), its primitives either return a value, print to the
    standard output, or leave through [exit(1)] after printing a message
    and the call stack.  This file embeds the header as Rocq functions over
    an explicit world (standard output and call stack) and proves the
    properties stated for it.

    Conventions of the embedding:
    - [long] is a 64-bit two's-complement integer, carried as a [Z] and
      normalised by [wrap64] after every arithmetic operation;
    - [double] is the binary64 type of [PrimFloat];
    - a [NootString] is the sequence of its [len] bytes (a [string], whose
      characters are the bytes); reading a byte at an index [>= len] is an
      out-of-bounds read;
    - a pointer to a [NootValue] that the code tests against [NULL] is an
      [option]; a pointer it never tests (the payload of an [Error], the
      [data] of a [Tree]) is the value it points to;
    - undefined behaviour of C (out-of-bounds reads, null dereference,
      division by zero, leaving a non-void function without [return]) is the
      outcome [Undef];
    - recursion of [noot_print] is bounded by a fuel argument; running out of
      fuel is the outcome [Timeout]. *)

From Stdlib Require Import ZArith List String Ascii Bool Lia.
From Stdlib Require Import Floats DecimalString.
Import ListNotations.

Local Open Scope string_scope.
Local Open Scope Z_scope.

(** ** Values *)

(** [enum NootType]; the constructors live in a module of their own, as
    [String] is also the constructor of Rocq's strings. *)
Module NootType.
Inductive t : Type :=
| Nil | Bool | Int | Real | String | List | Tree | Function | Closure | Error.

Definition eqb (a b : t) : bool :=
  match a, b with
  | Nil, Nil | Bool, Bool | Int, Int | Real, Real | String, String
  | List, List | Tree, Tree | Function, Function | Closure, Closure
  | Error, Error => true
  | _, _ => false
  end.
End NootType.
Abbreviation NootType := NootType.t.

(** [noot_type_names] *)
Definition noot_type_names (t : NootType) : string :=
  match t with
  | NootType.Nil => "nil"
  | NootType.Bool => "bool"
  | NootType.Int => "int"
  | NootType.Real => "real"
  | NootType.String => "string"
  | NootType.List => "list"
  | NootType.Tree => "tree"
  | NootType.Function => "function"
  | NootType.Closure => "function"
  | NootType.Error => "error"
  end.

(** A native callable is known by its address only. *)
Definition NootFn := N.
Definition NootClosureFn := N.

(** [struct NootValue]: the discriminant together with the active member of
    [union NootData]. *)
#[warnings="-register-all"]
Inductive NootValue : Type :=
| VNil
| VBool (b : bool)
| VInt (i : Z)
| VReal (r : float)
| VString (s : string)
| VList (head tail : option NootValue)
| VTree (data : NootValue) (left right : option NootValue)
| VFunction (f : NootFn)
| VClosure (captures : list NootValue) (f : NootClosureFn)
| VError (inner : NootValue).

(** [val.type] *)
Definition type_of (v : NootValue) : NootType :=
  match v with
  | VNil => NootType.Nil
  | VBool _ => NootType.Bool
  | VInt _ => NootType.Int
  | VReal _ => NootType.Real
  | VString _ => NootType.String
  | VList _ _ => NootType.List
  | VTree _ _ _ => NootType.Tree
  | VFunction _ => NootType.Function
  | VClosure _ _ => NootType.Closure
  | VError _ => NootType.Error
  end.

Definition new_bool (b : bool) : NootValue := VBool b.
Definition new_int (i : Z) : NootValue := VInt i.
Definition new_real (r : float) : NootValue := VReal r.

Definition NOOT_NIL : NootValue := VNil.
Definition NOOT_TRUE : NootValue := VBool true.
Definition NOOT_FALSE : NootValue := VBool false.

(** ** Machine arithmetic *)

(** Two's-complement normalisation into [-2^63, 2^63). *)
Definition wrap64 (z : Z) : Z := (z + 2 ^ 63) mod 2 ^ 64 - 2 ^ 63.

(** Normalisation into the range of [int] (32 bits). *)
Definition wrap32 (z : Z) : Z := (z + 2 ^ 31) mod 2 ^ 32 - 2 ^ 31.

(** Conversion to [uint8_t]. *)
Definition wrap_u8 (z : Z) : Z := z mod 256.

Definition LONG_MIN : Z := - 2 ^ 63.
Definition LONG_MAX : Z := 2 ^ 63 - 1.

Definition in_long (z : Z) : Prop := LONG_MIN <= z <= LONG_MAX.

(** [a / b] and [a % b] on [long]: truncating; a zero divisor and the
    quotient [LONG_MIN / -1] have no defined result. *)
Definition long_div (a b : Z) : option Z :=
  if (b =? 0) || ((a =? LONG_MIN) && (b =? -1)) then None
  else Some (Z.quot a b).

Definition long_rem (a b : Z) : option Z :=
  if (b =? 0) || ((a =? LONG_MIN) && (b =? -1)) then None
  else Some (Z.rem a b).

(** [(double) i]: the binary64 number nearest to the integer. *)
Definition of_long (i : Z) : float :=
  SF2Prim (binary_normalize prec emax i 0 false).

(** ** The C library functions the header calls *)

Module Libc.

(** [fmod(x, y)] of [<math.h>]: the exact remainder of the truncating
    division, with the sign of [x]. *)
Definition fmod (x y : float) : float :=
  match Prim2SF x, Prim2SF y with
  | S754_nan, _ | _, S754_nan => nan
  | S754_infinity _, _ => nan
  | _, S754_zero _ => nan
  | S754_zero _, _ => x
  | S754_finite _ _ _, S754_infinity _ => x
  | S754_finite sx mx ex, S754_finite _ my ey =>
      let e := Z.min ex ey in
      let X := Z.pos mx * 2 ^ (ex - e) in
      let Y := Z.pos my * 2 ^ (ey - e) in
      let R := X mod Y in
      if R =? 0 then (if sx then PrimFloat.neg_zero else PrimFloat.zero)
      else SF2Prim (binary_normalize prec emax (if sx then - R else R) e false)
  end.

(** Decimal digits of a non-negative integer. *)
Definition digits (z : Z) : string :=
  NilZero.string_of_uint (N.to_uint (Z.to_N z)).

(** The conversion [%d]: decimal digits with a leading [-] when negative. *)
Definition fmt_d (z : Z) : string :=
  if z <? 0 then "-" ++ digits (- z) else digits z.

Fixpoint zeros (n : nat) : string :=
  match n with
  | O => ""
  | S n => String "0" (zeros n)
  end.

(** [digits] padded on the left with zeros to [n] characters. *)
Definition digits_pad (n : nat) (z : Z) : string :=
  let d := digits z in
  zeros (n - String.length d) ++ d.

(** Rounding of the rational [num / den] ([den > 0], [num >= 0]) to the
    nearest integer, ties to even. *)
Definition round_half_even (num den : Z) : Z :=
  let q := num / den in
  let r := num mod den in
  match 2 * r ?= den with
  | Lt => q
  | Gt => q + 1
  | Eq => if Z.even q then q else q + 1
  end.

(** The conversion [%f] (precision 6): sign, integer part, a point and six
    decimals, the value rounded to the nearest multiple of [10^-6];
    [inf] and [nan] for the special values.  The C library prints a NaN with
    the sign its bit pattern has; [float] has one NaN, without sign, so the
    model renders every NaN without the sign. *)
Definition fmt_f (x : float) : string :=
  match Prim2SF x with
  | S754_nan => "nan"
  | S754_infinity s => if s then "-inf" else "inf"
  | S754_zero s => (if s then "-" else "") ++ "0.000000"
  | S754_finite s m e =>
      let scaled :=
        if 0 <=? e then Z.pos m * 2 ^ e * 1000000
        else round_half_even (Z.pos m * 1000000) (2 ^ (- e)) in
      (if s then "-" else "")
        ++ digits (scaled / 1000000) ++ "." ++ digits_pad 6 (scaled mod 1000000)
  end.

(** The bytes of [s] before its first NUL. *)
Fixpoint until_nul (s : string) : string :=
  match s with
  | EmptyString => EmptyString
  | String c s' => if Ascii.eqb c Ascii.zero then EmptyString else String c (until_nul s')
  end.

Fixpoint spaces (n : nat) : string :=
  match n with
  | O => ""
  | S n => String " " (spaces n)
  end.

(** The first [n] bytes of [s]. *)
Definition prefix (n : nat) (s : string) : string := substring 0 n s.

(** The conversion [%*.*s] with width [w] and precision [p]: at most [p]
    bytes of [s], stopping at a NUL, right-justified in [w] columns. *)
Definition fmt_star_s (w p : nat) (s : string) : string :=
  let body := until_nul (prefix p s) in
  spaces (w - String.length body) ++ body.

(** [sprintf] restricted to the directive [%s]: each [%s] of the format is
    replaced by the next argument. *)
Fixpoint sprintf_s (fmt : string) (args : list string) : string :=
  match fmt with
  | EmptyString => EmptyString
  | String "%" (String "s" rest) =>
      match args with
      | a :: args' => a ++ sprintf_s rest args'
      | [] => sprintf_s rest []
      end
  | String c rest => String c (sprintf_s rest args)
  end.

End Libc.

(** ** The world of a run and the outcomes of a call *)

(** What a call can observe and change: the bytes written to the standard
    output and the diagnostic call stack (oldest entry first) with the
    capacity of its array. *)
Record World : Type := mkWorld {
  stdout : string;
  noot_call_stack : list string;
  noot_call_stack_capacity : Z
}.

(** Outcome of running a piece of the header from a world. *)
Inductive Res (A : Type) : Type :=
| Ret (a : A) (w : World)        (* returned [a] *)
| Exit (status : Z) (w : World)  (* the process ended in [exit(status)] *)
| Undef                          (* undefined behaviour of C *)
| Timeout.                       (* the fuel of the model ran out *)

Arguments Ret {A} a w.
Arguments Exit {A} status w.
Arguments Undef {A}.
Arguments Timeout {A}.

Definition M (A : Type) : Type := World -> Res A.

Definition ret {A : Type} (a : A) : M A := fun w => Ret a w.

Definition bind {A B : Type} (m : M A) (k : A -> M B) : M B :=
  fun w =>
    match m w with
    | Ret a w' => k a w'
    | Exit st w' => Exit st w'
    | Undef => Undef
    | Timeout => Timeout
    end.

Declare Scope noot_scope.
Delimit Scope noot_scope with noot.
Notation "x <- m ;; k" := (bind m (fun x => k))
  (at level 61, m at next level, right associativity) : noot_scope.
Notation "m ;; k" := (bind m (fun _ => k))
  (at level 61, right associativity) : noot_scope.
Local Open Scope noot_scope.

Definition undef {A : Type} : M A := fun _ => Undef.
Definition timeout {A : Type} : M A := fun _ => Timeout.

(** [exit(status)]: the process ends, nothing after it runs. *)
Definition exit {A : Type} (status : Z) : M A := fun w => Exit status w.

(** A value computed without effect, or undefined behaviour. *)
Definition lift {A : Type} (o : option A) : M A :=
  match o with
  | Some a => ret a
  | None => undef
  end.

(** Control reaches the closing brace of a function that must return a value. *)
Definition fall_off_end {A : Type} : M A := undef.

(** The world after [text] has been written to the standard output. *)
Definition append_out (w : World) (text : string) : World :=
  mkWorld (stdout w ++ text) (noot_call_stack w) (noot_call_stack_capacity w).

(** Writing text to the standard output. *)
Definition printf (text : string) : M unit :=
  fun w => Ret tt (append_out w text).

(** [sprintf] into a buffer of [size] bytes: the text and its terminating NUL
    must fit. *)
Definition sprintf_into (size : nat) (text : string) : M string :=
  if (String.length text <? size)%nat then ret text else undef.

(** [args[i]] for an argument array holding the values [args]. *)
Definition arg (i : nat) (args : list NootValue) : M NootValue :=
  lift (nth_error args i).

Definition nl : string := String (ascii_of_nat 10) EmptyString.

(** ** Call stack and panic *)

Definition noot_push_call_stack (call_string : string) : M unit :=
  fun w =>
    let new_len := Z.of_nat (List.length (noot_call_stack w)) + 1 in
    let capacity :=
      if noot_call_stack_capacity w <=? new_len
      then (if noot_call_stack_capacity w =? 0 then 1 else noot_call_stack_capacity w * 2)
      else noot_call_stack_capacity w in
    Ret tt (mkWorld (stdout w) (noot_call_stack w ++ [call_string])%list capacity).

(** The loop of [noot_panic_impl]: one [at] line per entry, last pushed first. *)
Fixpoint print_trace (entries : list string) : M unit :=
  match entries with
  | [] => ret tt
  | e :: rest => printf ("at " ++ e ++ nl) ;; print_trace rest
  end.

Definition noot_panic_impl (message : string) : M unit :=
  printf (message ++ nl) ;;
  (fun w => print_trace (rev (noot_call_stack w)) w) ;;
  exit 1.

Definition noot_binary_type_panic (message : string) (a b : NootType) : M unit :=
  str <- sprintf_into 256 (Libc.sprintf_s message [noot_type_names a; noot_type_names b]) ;;
  noot_panic_impl str.

Definition noot_unary_type_panic (message : string) (ty : NootType) : M unit :=
  str <- sprintf_into 256 (Libc.sprintf_s message [noot_type_names ty]) ;;
  noot_panic_impl str.

(** [noot_error]: [inner] points to one value and is stored, as it is, as the
    payload of the new Error.  The function reads neither [count] nor the
    value: as for every pointer the code never tests, the model takes the
    pointer for the value it designates. *)
Definition noot_error (count : Z) (inner : NootValue) : M NootValue :=
  ret (VError inner).

(** ** The printer *)

Definition is_zero_or_point (c : ascii) : bool :=
  Ascii.eqb c "0" || Ascii.eqb c ".".

(** [while (str[i] == '0' || str[i] == '.') i--;] started at index [i] of the
    buffer holding [str].  The result is the index the loop stops at.  Once
    index 0 has been passed the loop reads [str[-1]], outside the buffer. *)
Fixpoint strip_loop (str : string) (i : nat) : option nat :=
  match String.get i str with
  | None => None
  | Some c =>
      if is_zero_or_point c then
        match i with
        | O => None
        | S i' => strip_loop str i'
        end
      else Some i
  end.

(** The case [Real] of [noot_print]. *)
Definition print_real (r : float) : M unit :=
  str <- sprintf_into 50 (Libc.fmt_f r) ;;
  let i := String.length str in
  if (i =? 0)%nat then ret tt
  else
    i <- lift (strip_loop str (i - 1)) ;;
    printf (Libc.fmt_star_s (i + 1) (i + 1) str).

(** The [while] loop of the case [List]: [pr] prints one element, [printed]
    and [curr] are the variables of the source.  The loop returns their
    final values.  A null [tail] makes the next test of the loop condition
    dereference a null pointer. *)
Fixpoint print_list_loop (pr : NootValue -> M unit) (printed : bool)
    (curr : NootValue) : M (bool * NootValue) :=
  match curr with
  | VList (Some head) tail =>
      (if printed then printf " " else ret tt) ;;
      pr head ;;
      match tail with
      | Some next => print_list_loop pr true next
      | None => undef
      end
  | _ => ret (printed, curr)
  end.

(** [noot_print].  Every recursive call of the source is a call with one
    unit of fuel less. *)
Fixpoint noot_print (fuel : nat) (count : Z) (args : list NootValue) : M NootValue :=
  match fuel with
  | O => timeout
  | S fuel =>
      let rec := fun v => noot_print fuel 1 [v] ;; ret tt in
      val <- (if 1 <=? count then arg 0 args else ret NOOT_NIL) ;;
      match val with
      | VNil => printf "nil"
      | VBool b => if b then printf "true" else printf "false"
      | VInt i =>
          (* [%d] reads an [int]: the low 32 bits of the [long] *)
          printf (Libc.fmt_d (wrap32 i))
      | VReal r => print_real r
      | VString s =>
          let len := String.length s in
          printf (Libc.fmt_star_s len len s)
      | VList _ _ =>
          printf "[" ;;
          st <- print_list_loop rec false val ;;
          let (printed, curr) := st in
          (if negb (NootType.eqb (type_of curr) NootType.Nil) then
             (if printed then printf " " else ret tt) ;;
             rec curr
           else ret tt) ;;
          printf "]"
      | VTree data tleft tright =>
          (* [tree] is the address of a member of [val], never null *)
          printf "{" ;;
          match tleft with
          | Some l => rec l
          | None => printf "_"
          end ;;
          printf " " ;;
          rec data ;;
          printf " " ;;
          match tright with
          | Some r => rec r
          | None => printf "_"
          end ;;
          printf "}"
      | VFunction _ | VClosure _ _ => printf "function"
      | VError inner => printf "Error: " ;; rec inner
      end ;;
      ret (new_bool true)
  end.

Definition noot_println (fuel : nat) (count : Z) (args : list NootValue) : M NootValue :=
  res <- noot_print fuel count args ;;
  printf nl ;;
  ret res.

Definition noot_panic (fuel : nat) (count : Z) (args : list NootValue) : M NootValue :=
  printf (nl ++ "Noot panicked:" ++ nl) ;;
  noot_println fuel count args ;;
  noot_panic_impl "" ;;
  fall_off_end.

(** ** Arithmetic operators *)

(** In each of the five operators the case [Int] of the outer [switch] has no
    [break]: when [b] is neither [Int] nor [Real] control falls through into
    the case [Real], whose inner [switch] matches nothing either, and reaches
    the type panic after the [switch]. *)

Definition noot_add (a b : NootValue) : M NootValue :=
  match a, b with
  | VInt x, VInt y => ret (new_int (wrap64 (x + y)))
  | VInt x, VReal y => ret (new_real (of_long x + y)%float)
  | VReal x, VInt y => ret (new_real (x + of_long y)%float)
  | VReal x, VReal y => ret (new_real (x + y)%float)
  | _, _ =>
      noot_binary_type_panic "Attempted to add incompatible types %s and %s"
        (type_of a) (type_of b) ;;
      fall_off_end
  end.

Definition noot_sub (a b : NootValue) : M NootValue :=
  match a, b with
  | VInt x, VInt y => ret (new_int (wrap64 (x - y)))
  | VInt x, VReal y => ret (new_real (of_long x - y)%float)
  | VReal x, VInt y => ret (new_real (x - of_long y)%float)
  | VReal x, VReal y => ret (new_real (x - y)%float)
  | _, _ =>
      noot_binary_type_panic "Attempted to subtract incompatible types %s and %s"
        (type_of a) (type_of b) ;;
      fall_off_end
  end.

Definition noot_mul (a b : NootValue) : M NootValue :=
  match a, b with
  | VInt x, VInt y => ret (new_int (wrap64 (x * y)))
  | VInt x, VReal y => ret (new_real (of_long x * y)%float)
  | VReal x, VInt y => ret (new_real (x * of_long y)%float)
  | VReal x, VReal y => ret (new_real (x * y)%float)
  | _, _ =>
      noot_binary_type_panic "Attempted to subtract multiply types %s and %s"
        (type_of a) (type_of b) ;;
      fall_off_end
  end.

Definition noot_div (a b : NootValue) : M NootValue :=
  match a, b with
  | VInt x, VInt y => q <- lift (long_div x y) ;; ret (new_int q)
  | VInt x, VReal y => ret (new_real (of_long x / y)%float)
  | VReal x, VInt y => ret (new_real (x / of_long y)%float)
  | VReal x, VReal y => ret (new_real (x / y)%float)
  | _, _ =>
      noot_binary_type_panic "Attempted to divide incompatible types %s and %s"
        (type_of a) (type_of b) ;;
      fall_off_end
  end.

Definition noot_rem (a b : NootValue) : M NootValue :=
  match a, b with
  | VInt x, VInt y => r <- lift (long_rem x y) ;; ret (new_int r)
  | VInt x, VReal y => ret (new_real (Libc.fmod (of_long x) y))
  | VReal x, VInt y => ret (new_real (Libc.fmod x (of_long y)))
  | VReal x, VReal y => ret (new_real (Libc.fmod x y))
  | _, _ =>
      noot_binary_type_panic "Attempted to divide incompatible types %s and %s"
        (type_of a) (type_of b) ;;
      fall_off_end
  end.

(** The macro [bin_fn(f)]: the wrapper [f_fn] over an argument array. *)
Definition bin_fn (f : NootValue -> NootValue -> M NootValue)
    (count : Z) (args : list NootValue) : M NootValue :=
  left_ <- (if 1 <=? count then arg 0 args else ret NOOT_NIL) ;;
  right_ <- (if 2 <=? count then arg 1 args else ret NOOT_NIL) ;;
  f left_ right_.

(** ** Equality and ordering *)

(** The loop of the case [String] of [noot_eq_impl], entered when the two
    lengths agree; [sa] and [sb] are the bytes from index [i] on. *)
Fixpoint eq_string_loop (sa sb : string) : option bool :=
  match sa with
  | EmptyString => Some true
  | String ac sa' =>
      match sb with
      | String bc sb' => if Ascii.eqb ac bc then eq_string_loop sa' sb' else Some false
      | EmptyString => None
      end
  end.

(** [noot_eq_impl].  The [switch] has no case for [List] nor [Tree] and no
    [default]: for these the function ends without a [return]. *)
Fixpoint noot_eq_impl (a b : NootValue) : option bool :=
  match a with
  | VNil => Some (NootType.eqb (type_of b) NootType.Nil)
  | VBool x =>
      match b with
      | VBool y => Some (Bool.eqb x y)
      | _ => Some false
      end
  | VInt x =>
      match b with
      | VInt y => Some (x =? y)
      | VReal y => Some (of_long x =? y)%float
      | _ => Some false
      end
  | VReal x =>
      match b with
      | VInt y => Some (x =? of_long y)%float
      | VReal y => Some (x =? y)%float
      | _ => Some false
      end
  | VString sa =>
      match b with
      | VString sb =>
          if (String.length sa =? String.length sb)%nat then eq_string_loop sa sb
          else Some false
      | _ => Some false
      end
  | VFunction f =>
      match b with
      | VFunction g => Some (f =? g)%N
      | _ => Some false
      end
  | VClosure _ f =>
      match b with
      | VClosure _ g => Some (f =? g)%N
      | _ => Some false
      end
  | VError x =>
      match b with
      | VError y => noot_eq_impl x y
      | _ => Some false
      end
  | VList _ _ | VTree _ _ _ => None
  end.

(** The macro [min(a, b)] is [a < b ? a : b] without parentheses, so the loop
    condition [i < min(a.len, b.len)] is the expression
    [i < a.len < b.len ? a.len : b.len], that is
    [((i < a.len) < b.len) ? a.len : b.len]: a length, true when not zero. *)
Definition string_loop_cond (i alen blen : nat) : bool :=
  let chosen := if Z.b2z (i <? alen)%nat <? Z.of_nat blen then alen else blen in
  negb (chosen =? 0)%nat.

Definition byte_lt (a b : ascii) : bool := (N_of_ascii a <? N_of_ascii b)%N.

(** The loop of the case [String] of [noot_lt_impl] ([byte_cmp] is [<]) and
    of [noot_gt_impl] ([byte_cmp] is [>]), followed by the comparison of the
    lengths; [sa] and [sb] are the bytes of [a] and [b] from index [i] on, and
    a byte read at the end of either is a read outside the string. *)
Fixpoint cmp_string_loop (byte_cmp : ascii -> ascii -> bool) (len_cmp : bool)
    (alen blen i : nat) (sa sb : string) : option bool :=
  if string_loop_cond i alen blen then
    match sa, sb with
    | String ac sa', String bc sb' =>
        if Ascii.eqb ac bc
        then cmp_string_loop byte_cmp len_cmp alen blen (S i) sa' sb'
        else Some (byte_cmp ac bc)
    | _, _ => None
    end
  else Some len_cmp.

Definition compare_msg : string :=
  "Attempted to compare incompatible types %s and %s".

Definition noot_lt_impl (a b : NootValue) : M bool :=
  match a, b with
  | VBool x, VBool y => ret (Z.b2z x <? Z.b2z y)
  | VInt x, VInt y => ret (x <? y)
  | VInt x, VReal y => ret (of_long x <? y)%float
  | VReal x, VInt y => ret (x <? of_long y)%float
  | VReal x, VReal y => ret (x <? y)%float
  | VString sa, VString sb =>
      let alen := String.length sa in
      let blen := String.length sb in
      lift (cmp_string_loop byte_lt (alen <? blen)%nat alen blen 0 sa sb)
  | VFunction f, VFunction g => ret (f <? g)%N
  | VClosure _ f, VClosure _ g => ret (f <? g)%N
  | VError x, VError y => lift (noot_eq_impl x y)
  | _, _ =>
      noot_binary_type_panic compare_msg (type_of a) (type_of b) ;;
      fall_off_end
  end.

Definition noot_gt_impl (a b : NootValue) : M bool :=
  match a, b with
  | VBool x, VBool y => ret (Z.b2z y <? Z.b2z x)
  | VInt x, VInt y => ret (y <? x)
  | VInt x, VReal y => ret (y <? of_long x)%float
  | VReal x, VInt y => ret (of_long y <? x)%float
  | VReal x, VReal y => ret (y <? x)%float
  | VString sa, VString sb =>
      let alen := String.length sa in
      let blen := String.length sb in
      lift (cmp_string_loop (fun ac bc => byte_lt bc ac) (blen <? alen)%nat alen blen 0 sa sb)
  | VFunction f, VFunction g => ret (g <? f)%N
  | VClosure _ f, VClosure _ g => ret (g <? f)%N
  | VError x, VError y => lift (noot_eq_impl x y)
  | _, _ =>
      noot_binary_type_panic compare_msg (type_of a) (type_of b) ;;
      fall_off_end
  end.

Definition noot_eq (a b : NootValue) : M NootValue :=
  e <- lift (noot_eq_impl a b) ;; ret (new_bool e).

Definition noot_neq (a b : NootValue) : M NootValue :=
  e <- lift (noot_eq_impl a b) ;; ret (new_bool (negb e)).

Definition noot_lt (a b : NootValue) : M NootValue :=
  l <- noot_lt_impl a b ;; ret (new_bool l).

(** [noot_lt_impl(a, b) || noot_eq_impl(a, b)]: the right operand is evaluated
    only when the left one is false. *)
Definition noot_le (a b : NootValue) : M NootValue :=
  l <- noot_lt_impl a b ;;
  if l then ret (new_bool true)
  else e <- lift (noot_eq_impl a b) ;; ret (new_bool e).

Definition noot_gt (a b : NootValue) : M NootValue :=
  g <- noot_gt_impl a b ;; ret (new_bool g).

Definition noot_ge (a b : NootValue) : M NootValue :=
  g <- noot_gt_impl a b ;;
  if g then ret (new_bool true)
  else e <- lift (noot_eq_impl a b) ;; ret (new_bool e).

Definition noot_add_fn := bin_fn noot_add.
Definition noot_sub_fn := bin_fn noot_sub.
Definition noot_mul_fn := bin_fn noot_mul.
Definition noot_div_fn := bin_fn noot_div.
Definition noot_rem_fn := bin_fn noot_rem.
Definition noot_eq_fn := bin_fn noot_eq.
Definition noot_neq_fn := bin_fn noot_neq.
Definition noot_lt_fn := bin_fn noot_lt.
Definition noot_le_fn := bin_fn noot_le.
Definition noot_gt_fn := bin_fn noot_gt.
Definition noot_ge_fn := bin_fn noot_ge.

(** ** Unary operators, truthiness and assertion *)

Definition noot_neg (val : NootValue) : M NootValue :=
  match val with
  | VInt x => ret (new_int (wrap64 (- x)))
  | VReal x => ret (new_real (- x)%float)
  | _ =>
      noot_unary_type_panic "Attempted to negate %s" (type_of val) ;;
      fall_off_end
  end.

Definition noot_not (count : Z) (args : list NootValue) : M NootValue :=
  val <- (if 1 <=? count then arg 0 args else ret NOOT_NIL) ;;
  match val with
  | VBool b => ret (new_bool (negb b))
  | _ => ret (new_bool (NootType.eqb (type_of val) NootType.Nil))
  end.

(** [val.data.Bool].  When the active member of the union is not [Bool] the
    byte read is whatever that member left there: [other]. *)
Definition data_Bool (other : Z) (val : NootValue) : Z :=
  match val with
  | VBool b => Z.b2z b
  | _ => other
  end.

(** [noot_is_true], for a given content [other] of the inactive member. *)
Definition noot_is_true_at (other : Z) (val : NootValue) : bool :=
  let is_bool := NootType.eqb (type_of val) NootType.Bool in
  let is_nil := NootType.eqb (type_of val) NootType.Nil in
  let is_error := NootType.eqb (type_of val) NootType.Error in
  negb (Z.b2z is_bool * data_Bool other val
        + Z.b2z (negb is_bool) * Z.b2z (negb is_nil && negb is_error) =? 0).

Definition noot_is_true (val : NootValue) : bool := noot_is_true_at 0 val.

Definition noot_assert (fuel : nat) (count : Z) (args : list NootValue) : M NootValue :=
  val <- (if 1 <=? count then arg 0 args else ret NOOT_NIL) ;;
  (if negb (noot_is_true val) then
     if 2 <=? count then noot_panic fuel (wrap_u8 (count - 1)) (tl args) ;; ret tt
     else noot_panic fuel count args ;; ret tt
   else ret tt) ;;
  ret val.

(** ** Calls through the call stack *)

(** [noot_pop_call_stack]: the length goes down by one, so the last entry is
    no longer part of the stack.  On an empty stack the unsigned length wraps
    around to [SIZE_MAX]; from there on every push writes outside the array.
    No world of this model has such a length, and the model ends the run
    there. *)
Definition noot_pop_call_stack : M unit :=
  fun w =>
    match noot_call_stack w with
    | [] => Undef
    | _ :: _ =>
        Ret tt (mkWorld (stdout w) (removelast (noot_call_stack w))
                  (noot_call_stack_capacity w))
    end.

(** [noot_call_bin_op]: the operator [f] runs between a push and a pop of the
    call site. *)
Definition noot_call_bin_op (f : NootValue -> NootValue -> M NootValue)
    (a b : NootValue) (call_site : string) : M NootValue :=
  noot_push_call_stack call_site ;;
  res <- f a b ;;
  noot_pop_call_stack ;;
  ret res.

(** [noot_call].  The code behind a function pointer is not part of the
    header: [native] and [native_closure] give the callable each address
    designates.  [count] is an [int] here and a [uint8_t] in the callee. *)
Definition noot_call
    (native : NootFn -> Z -> list NootValue -> M NootValue)
    (native_closure : NootClosureFn -> Z -> list NootValue -> list NootValue -> M NootValue)
    (val : NootValue) (count : Z) (args : list NootValue) (call_site : string)
  : M NootValue :=
  noot_push_call_stack call_site ;;
  match val with
  | VFunction f =>
      res <- native f (wrap_u8 count) args ;;
      noot_pop_call_stack ;;
      ret res
  | VClosure captures f =>
      res <- native_closure f (wrap_u8 count) args captures ;;
      noot_pop_call_stack ;;
      ret res
  | _ =>
      noot_unary_type_panic "Attempted to call %s value" (type_of val) ;;
      fall_off_end
  end.

(** * Vocabulary of the properties *)

(** The text of the trace: one line per entry. *)
Fixpoint trace_text (entries : list string) : string :=
  match entries with
  | [] => ""
  | e :: rest => ("at " ++ e ++ nl) ++ trace_text rest
  end.

(** What a panic leaves on the standard output after [message]: a newline
    and the trace, most recent call first. *)
Definition panic_text (message : string) (w : World) : string :=
  message ++ nl ++ trace_text (rev (noot_call_stack w)).

(** The truth table of logical not. *)
Definition not_table (v : NootValue) : bool :=
  match v with
  | VBool b => negb b
  | VNil => true
  | _ => false
  end.

(** The world at the start of a run: nothing printed, no call entered. *)
Definition w0 : World := mkWorld "" [] 0.

(** The values whose comparison with themselves reaches a [return] of
    [noot_eq_impl] that yields true: the discriminants the [switch] handles,
    a Real being a number (not NaN), an Error wrapping such a value. *)
Fixpoint self_equal (a : NootValue) : bool :=
  match a with
  | VNil | VBool _ | VInt _ | VString _ | VFunction _ | VClosure _ _ => true
  | VReal r => negb (PrimFloat.is_nan r)
  | VError inner => self_equal inner
  | VList _ _ | VTree _ _ _ => false
  end.

(** An operator promotes its Int operand: on a mixed pair it has the outcome
    it has on the two Reals obtained by converting the Int, and that outcome
    is a Real returned in an unchanged world. *)
Definition promotes (op : NootValue -> NootValue -> M NootValue) : Prop :=
  forall (a : Z) (r : float) (w : World),
    op (VInt a) (VReal r) w = op (VReal (of_long a)) (VReal r) w
    /\ op (VReal r) (VInt a) w = op (VReal r) (VReal (of_long a)) w
    /\ (exists x, op (VInt a) (VReal r) w = Ret (VReal x) w)
    /\ (exists y, op (VReal r) (VInt a) w = Ret (VReal y) w).

(** With fuel [fuel], printing the single value [v] returns the marker true
    and appends [text] to the standard output, whatever was printed before. *)
Definition prints_as (fuel : nat) (v : NootValue) (text : string) : Prop :=
  forall w : World,
    noot_print fuel 1 [v] w = Ret (VBool true) (append_out w text).

(** The list with the elements [elems] in order and the final tail [last]. *)
Definition noot_list (elems : list NootValue) (last : NootValue) : NootValue :=
  fold_right (fun e rest => VList (Some e) (Some rest)) last elems.

(** The texts separated by single spaces, with a leading space when
    something was printed before. *)
Fixpoint join_from (printed : bool) (texts : list string) : string :=
  match texts with
  | [] => ""
  | t :: rest => (if printed then " " else "") ++ t ++ join_from true rest
  end.

(** The texts separated by single spaces. *)
Definition join (texts : list string) : string := join_from false texts.

(** The value of [printed] after the loop has run over [l]. *)
Definition nonempty {A : Type} (l : list A) : bool :=
  match l with
  | [] => false
  | _ :: _ => true
  end.

(** The element printer handed to the loop by [noot_print]. *)
Definition print_elem (fuel : nat) (v : NootValue) : M unit :=
  noot_print fuel 1 [v] ;; ret tt.

(** The truthiness rule: a Bool is its value, Nil and Error are falsy, every
    other discriminant is truthy. *)
Definition truthy (v : NootValue) : bool :=
  match v with
  | VBool b => b
  | VNil | VError _ => false
  | _ => true
  end.

(** The banner [noot_panic] prints before its payload. *)
Definition panic_banner : string := nl ++ "Noot panicked:" ++ nl.

(** All characters of the string are ['0'] or ['.']. *)
Fixpoint all_zero_or_point (s : string) : bool :=
  match s with
  | EmptyString => true
  | String c s' => is_zero_or_point c && all_zero_or_point s'
  end.

(** The double nearest to 3.14. *)
Definition real_3_14 : float := 0x1.91eb851eb851fp+1%float.

(** A primitive called through the argument-array convention substitutes Nil
    for a missing first argument: with a count of zero, and whatever the
    array holds, it behaves as on the single argument Nil. *)
Definition nil_for_missing (f : Z -> list NootValue -> M NootValue) : Prop :=
  forall (args : list NootValue) (w : World), f 0 args w = f 1 [NOOT_NIL] w.

(** A wrapper made by [bin_fn] applies its operator to Nil for each absent
    operand. *)
Definition wraps_with_nil (op : NootValue -> NootValue -> M NootValue)
    (fn : Z -> list NootValue -> M NootValue) : Prop :=
  (forall (args : list NootValue) (w : World),
      fn 0 args w = op NOOT_NIL NOOT_NIL w)
  /\ (forall (a : NootValue) (rest : list NootValue) (w : World),
         fn 1 (a :: rest) w = op a NOOT_NIL w)
  /\ (forall (a b : NootValue) (rest : list NootValue) (w : World),
         fn 2 (a :: b :: rest) w = op a b w).

(** The operators and their wrappers, as the header instantiates [bin_fn]. *)
Definition binary_wrappers :
  list ((NootValue -> NootValue -> M NootValue) * (Z -> list NootValue -> M NootValue)) :=
  [ (noot_add, noot_add_fn); (noot_sub, noot_sub_fn); (noot_mul, noot_mul_fn);
    (noot_div, noot_div_fn); (noot_rem, noot_rem_fn); (noot_eq, noot_eq_fn);
    (noot_neq, noot_neq_fn); (noot_lt, noot_lt_fn); (noot_le, noot_le_fn);
    (noot_gt, noot_gt_fn); (noot_ge, noot_ge_fn) ].

(** The discriminants arithmetic accepts. *)
Definition numeric (t : NootType) : bool :=
  match t with
  | NootType.Int | NootType.Real => true
  | _ => false
  end.

(** The pairs of discriminants the ordering operators accept. *)
Definition comparable (a b : NootType) : bool :=
  match a, b with
  | NootType.Bool, NootType.Bool
  | NootType.String, NootType.String
  | NootType.Function, NootType.Function
  | NootType.Closure, NootType.Closure
  | NootType.Error, NootType.Error => true
  | _, _ => numeric a && numeric b
  end.

(** The world after [call_site] has been pushed, the capacity left aside. *)
Definition entered (w : World) (call_site : string) : list string :=
  (noot_call_stack w ++ [call_site])%list.

(** [w'] is [w] with more text on the standard output and nothing else
    changed. *)
Definition only_prints (w w' : World) : Prop :=
  exists text : string, w' = append_out w text.

(** The text an absent or present subtree is printed as. *)
Definition prints_opt (fuel : nat) (o : option NootValue) (text : string) : Prop :=
  match o with
  | None => text = "_"
  | Some v => prints_as fuel v text
  end.

(** The string holds no NUL byte. *)
Fixpoint no_nul (s : string) : bool :=
  match s with
  | EmptyString => true
  | String c s' => negb (Ascii.eqb c Ascii.zero) && no_nul s'
  end.

(** A run from [w] that did not end the process and, if it returned, only
    printed. *)
Definition frame {A : Type} (w : World) (r : Res A) : Prop :=
  match r with
  | Ret _ w' => only_prints w w'
  | Exit _ _ => False
  | Undef | Timeout => True
  end.

(** The number of nodes the loop of the List printer walks from [v]. *)
Fixpoint chain_length (v : NootValue) : nat :=
  match v with
  | VList _ (Some next) => S (chain_length next)
  | _ => O
  end.

(** The same for a primitive that takes its argument by pointer: with a
    count of zero, and whatever value the pointer designates, it behaves as
    on the single argument Nil. *)
Definition nil_for_missing_at (f : Z -> NootValue -> M NootValue) : Prop :=
  forall (first : NootValue) (w : World), f 0 first w = f 1 NOOT_NIL w.

(** * Properties *)

(** ** Reasoning about the monad and the output *)

Lemma string_app_assoc (a b c : string) : (a ++ b) ++ c = a ++ (b ++ c).
Proof.
  induction a as [|ch a IH]; simpl.
  - reflexivity.
  - now rewrite IH.
Qed.

Lemma string_app_nil_r (a : string) : a ++ "" = a.
Proof.
  induction a as [|ch a IH]; simpl; [reflexivity | now rewrite IH].
Qed.

Lemma append_out_app (w : World) (a b : string) :
  append_out (append_out w a) b = append_out w (a ++ b).
Proof.
  unfold append_out; simpl. now rewrite string_app_assoc.
Qed.

Lemma append_out_nil (w : World) : append_out w "" = w.
Proof.
  destruct w; unfold append_out; simpl. now rewrite string_app_nil_r.
Qed.

Lemma bind_ret_l {A B : Type} (a : A) (k : A -> M B) (w : World) :
  bind (ret a) k w = k a w.
Proof. reflexivity. Qed.

Lemma bind_printf {B : Type} (text : string) (k : unit -> M B) (w : World) :
  bind (printf text) k w = k tt (append_out w text).
Proof. reflexivity. Qed.

Lemma bind_assoc {A B C : Type} (m : M A) (k : A -> M B) (h : B -> M C) (w : World) :
  bind (bind m k) h w = bind m (fun a => bind (k a) h) w.
Proof.
  unfold bind. destruct (m w); reflexivity.
Qed.

Lemma print_trace_out (entries : list string) (w : World) :
  print_trace entries w = Ret tt (append_out w (trace_text entries)).
Proof.
  revert w. induction entries as [|e rest IH]; intros w; simpl.
  - now rewrite append_out_nil.
  - rewrite bind_printf, IH, append_out_app. reflexivity.
Qed.

Lemma noot_panic_impl_exits (message : string) (w : World) :
  noot_panic_impl message w = Exit 1 (append_out w (panic_text message w)).
Proof.
  unfold noot_panic_impl, panic_text.
  rewrite bind_printf. unfold bind at 1.
  rewrite print_trace_out. unfold exit.
  rewrite append_out_app, string_app_assoc. reflexivity.
Qed.

(** A type panic with a message that fits its buffer ends the process. *)
Lemma noot_binary_type_panic_exits (fmt : string) (a b : NootType) (w : World) :
  (String.length (Libc.sprintf_s fmt [noot_type_names a; noot_type_names b]) < 256)%nat ->
  noot_binary_type_panic fmt a b w
  = Exit 1 (append_out w
      (panic_text (Libc.sprintf_s fmt [noot_type_names a; noot_type_names b]) w)).
Proof.
  intros Hlen. unfold noot_binary_type_panic, sprintf_into.
  apply Nat.ltb_lt in Hlen. rewrite Hlen.
  rewrite bind_ret_l. apply noot_panic_impl_exits.
Qed.

(** ** Type mismatch in [noot_add] *)

(** C2.  For every String value [s] and Int value [n], [noot_add] does not
    return: the process exits with status 1 after writing the message
    "Attempted to add incompatible types string and int", which names both
    discriminants, followed by the call-stack trace.  This covers
    add(String "a", Int 1). *)
Theorem add_string_int_panics :
  forall (s : string) (n : Z) (w : World),
    noot_add (VString s) (VInt n) w
    = Exit 1 (append_out w
        (panic_text
           ("Attempted to add incompatible types "
              ++ noot_type_names NootType.String ++ " and "
              ++ noot_type_names NootType.Int) w))
    /\ noot_type_names (type_of (VString s)) = "string"
    /\ noot_type_names (type_of (VInt n)) = "int"
    /\ (forall (v : NootValue) (w' : World),
          noot_add (VString s) (VInt n) w <> Ret v w').
Proof.
  intros s n w.
  assert (H : noot_add (VString s) (VInt n) w
              = Exit 1 (append_out w
                  (panic_text "Attempted to add incompatible types string and int" w))).
  { unfold noot_add. unfold bind.
    rewrite noot_binary_type_panic_exits by (vm_compute; lia).
    reflexivity. }
  repeat split; try exact H.
  intros v w'. rewrite H. discriminate.
Qed.

(** ** Logical not *)

(** C7.  Logical not, applied to at least one argument, returns the inverted
    boolean for a Bool, true for Nil and false for every other discriminant
    (Error included); it returns normally and leaves the world unchanged, so
    it never panics. *)
Theorem noot_not_table :
  forall (count : Z) (v : NootValue) (rest : list NootValue) (w : World),
    1 <= count ->
    noot_not count (v :: rest) w = Ret (VBool (not_table v)) w.
Proof.
  intros count v rest w Hc.
  unfold noot_not. apply Z.leb_le in Hc. rewrite Hc.
  destruct v; reflexivity.
Qed.

Lemma noot_not_table_witness :
  noot_not 1 [VError (VBool true)] (mkWorld "" [] 0)
  = Ret (VBool false) (mkWorld "" [] 0).
Proof.
  apply (noot_not_table 1 (VError (VBool true)) [] (mkWorld "" [] 0)). lia.
Defined.

(** ** Equality *)

Lemma eq_string_loop_refl (s : string) : eq_string_loop s s = Some true.
Proof.
  induction s as [|c s IH]; simpl.
  - reflexivity.
  - now rewrite Ascii.eqb_refl.
Qed.

Lemma eq_string_loop_defined (sa : string) :
  forall sb, String.length sa = String.length sb ->
             exists e, eq_string_loop sa sb = Some e.
Proof.
  induction sa as [|ac sa IH]; intros sb Hlen; simpl.
  - now exists true.
  - destruct sb as [|bc sb]; [discriminate|].
    destruct (Ascii.eqb ac bc).
    + apply IH. now injection Hlen.
    + now exists false.
Qed.

(** NaN in the sense of the primitive floats is the NaN of the IEEE 754
    specification. *)
Lemma is_nan_spec (r : float) : PrimFloat.is_nan r = true <-> Prim2SF r = S754_nan.
Proof.
  unfold Prim2SF. destruct (PrimFloat.is_nan r).
  - split; reflexivity.
  - split; [discriminate|].
    destruct (is_zero r); [discriminate|].
    destruct (is_infinity r); [discriminate|].
    destruct (Z.frexp r) as [m e].
    destruct (shr_fexp prec emax _ _ _) as [shr e'].
    destruct (shr_m shr); discriminate.
Qed.

Lemma noot_eq_impl_refl (a : NootValue) :
  self_equal a = true -> noot_eq_impl a a = Some true.
Proof.
  induction a; simpl; intros H; try discriminate; try reflexivity.
  - now rewrite Bool.eqb_reflx.
  - now rewrite Z.eqb_refl.
  - unfold PrimFloat.is_nan in H. apply negb_true_iff in H.
    apply negb_false_iff in H. now rewrite H.
  - rewrite Nat.eqb_refl. apply eq_string_loop_refl.
  - now rewrite N.eqb_refl.
  - now rewrite N.eqb_refl.
  - auto.
Qed.

(** C3, as stated, fails: a Real holding NaN is not equal to itself, and a
    List compared with itself reaches no [return] at all. *)
Lemma eq_refl_counterexample :
  noot_eq (VReal PrimFloat.nan) (VReal PrimFloat.nan) w0 = Ret (VBool false) w0
  /\ noot_eq (VList None None) (VList None None) w0 = Undef.
Proof.
  split; vm_compute; reflexivity.
Qed.

(** C3, amended.  For every value [a] that is a Nil, Bool, Int, String,
    Function or Closure, a Real other than NaN, or an Error wrapping such a
    value, [eq(a,a)] returns true. *)
Theorem eq_refl_on_self_equal :
  forall (a : NootValue) (w : World),
    self_equal a = true ->
    noot_eq a a w = Ret (VBool true) w.
Proof.
  intros a w H. unfold noot_eq.
  rewrite (noot_eq_impl_refl a H). reflexivity.
Qed.

Lemma eq_refl_on_self_equal_witness :
  noot_eq (VError (VString "boom")) (VError (VString "boom")) w0
  = Ret (VBool true) w0.
Proof.
  apply (eq_refl_on_self_equal (VError (VString "boom")) w0). reflexivity.
Defined.

Lemma eq_nan_false (r : float) (w : World) :
  PrimFloat.is_nan r = true -> noot_eq (VReal r) (VReal r) w = Ret (VBool false) w.
Proof.
  intros H. unfold PrimFloat.is_nan in H. apply negb_true_iff in H.
  unfold noot_eq; simpl. now rewrite H.
Qed.

(** ** Ordering *)

Lemma noot_binary_type_panic_no_return (fmt : string) (a b : NootType) (w : World) :
  forall (u : unit) (w' : World), noot_binary_type_panic fmt a b w <> Ret u w'.
Proof.
  intros u w'. unfold noot_binary_type_panic, sprintf_into.
  destruct (_ <? _)%nat.
  - rewrite bind_ret_l, noot_panic_impl_exits. discriminate.
  - discriminate.
Qed.

Lemma type_panic_then_no_return {A : Type} (fmt : string) (a b : NootType)
    (k : unit -> M A) (w : World) :
  forall (x : A) (w' : World), bind (noot_binary_type_panic fmt a b) k w <> Ret x w'.
Proof.
  intros x w'. unfold bind.
  pose proof (noot_binary_type_panic_no_return fmt a b w) as H.
  destruct (noot_binary_type_panic fmt a b w) as [u w1| | |]; try discriminate.
  exfalso. exact (H u w1 eq_refl).
Qed.

Lemma lift_ret_inv {A : Type} (o : option A) (w w' : World) (x : A) :
  lift o w = Ret x w' -> o = Some x /\ w' = w.
Proof.
  destruct o; simpl; unfold ret, undef; intros H; inversion H; auto.
Qed.

(** On every pair for which [noot_lt_impl] returns, [noot_eq_impl] has a
    result too. *)
Ltac ordering_cases Hcmp :=
  match type of Hcmp with
  | bind (noot_binary_type_panic _ _ _) _ _ = Ret _ _ =>
      exfalso; exact (type_panic_then_no_return _ _ _ _ _ _ _ Hcmp)
  | ret _ _ = Ret _ _ => inversion Hcmp; subst; clear Hcmp
  | lift _ _ = Ret _ _ => apply lift_ret_inv in Hcmp; destruct Hcmp as [Hcmp ->]
  end.

Lemma le_is_lt_or_eq (a b : NootValue) (w w' : World) (l : bool) :
  noot_lt_impl a b w = Ret l w' ->
  exists e, noot_eq_impl a b = Some e
            /\ noot_le a b w = Ret (VBool (l || e)) w' /\ w' = w.
Proof.
  intros Hlt. unfold noot_le. unfold bind at 1. rewrite Hlt.
  destruct a, b; cbn [noot_lt_impl type_of] in Hlt; ordering_cases Hlt;
    try (eexists; split; [reflexivity|];
         match goal with |- context [if ?c then _ else _] => destruct c end;
         split; reflexivity).
  - (* String *)
    cbn [noot_eq_impl].
    destruct (String.length s =? String.length s0)%nat eqn:Hlen.
    + apply Nat.eqb_eq in Hlen.
      destruct (eq_string_loop_defined s s0 Hlen) as [e He].
      exists e. rewrite He. destruct l; repeat split; reflexivity.
    + exists false. destruct l; repeat split; reflexivity.
  - (* Error *)
    exists l. cbn [noot_eq_impl]. rewrite Hlt.
    destruct l; repeat split; reflexivity.
Qed.

Lemma ge_is_gt_or_eq (a b : NootValue) (w w' : World) (g : bool) :
  noot_gt_impl a b w = Ret g w' ->
  exists e, noot_eq_impl a b = Some e
            /\ noot_ge a b w = Ret (VBool (g || e)) w' /\ w' = w.
Proof.
  intros Hgt. unfold noot_ge. unfold bind at 1. rewrite Hgt.
  destruct a, b; cbn [noot_gt_impl type_of] in Hgt; ordering_cases Hgt;
    try (eexists; split; [reflexivity|];
         match goal with |- context [if ?c then _ else _] => destruct c end;
         split; reflexivity).
  - cbn [noot_eq_impl].
    destruct (String.length s =? String.length s0)%nat eqn:Hlen.
    + apply Nat.eqb_eq in Hlen.
      destruct (eq_string_loop_defined s s0 Hlen) as [e He].
      exists e. rewrite He. destruct g; repeat split; reflexivity.
    + exists false. destruct g; repeat split; reflexivity.
  - exists g. cbn [noot_eq_impl]. rewrite Hgt.
    destruct g; repeat split; reflexivity.
Qed.

(** C1, as stated, fails: on the Ints 1 and 2 the comparison is defined,
    [le] returns true and [eq] returns false; on 2 and 1 [ge] returns true
    and [eq] returns false. *)
Lemma le_ge_not_eq_counterexample :
  noot_lt (VInt 1) (VInt 2) w0 = Ret (VBool true) w0
  /\ noot_le (VInt 1) (VInt 2) w0 = Ret (VBool true) w0
  /\ noot_eq (VInt 1) (VInt 2) w0 = Ret (VBool false) w0
  /\ noot_gt (VInt 2) (VInt 1) w0 = Ret (VBool true) w0
  /\ noot_ge (VInt 2) (VInt 1) w0 = Ret (VBool true) w0
  /\ noot_eq (VInt 2) (VInt 1) w0 = Ret (VBool false) w0.
Proof.
  repeat split.
Qed.

(** C1, amended.  For every pair of values [a], [b] on which comparison is
    defined (the strict comparisons [lt] and [gt] return [l] and [g]),
    equality is defined too, [le(a,b)] returns the boolean [l || eq(a,b)] and
    [ge(a,b)] returns [g || eq(a,b)]: each is the strict comparison or
    equality, not equality alone. *)
Theorem le_ge_strict_or_equal :
  forall (a b : NootValue) (w : World) (l g : bool),
    noot_lt_impl a b w = Ret l w ->
    noot_gt_impl a b w = Ret g w ->
    exists e : bool,
      noot_eq a b w = Ret (VBool e) w
      /\ noot_le a b w = Ret (VBool (l || e)) w
      /\ noot_ge a b w = Ret (VBool (g || e)) w.
Proof.
  intros a b w l g Hlt Hgt.
  destruct (le_is_lt_or_eq a b w w l Hlt) as (e & He & Hle & _).
  destruct (ge_is_gt_or_eq a b w w g Hgt) as (e' & He' & Hge & _).
  rewrite He in He'. injection He' as <-.
  exists e. repeat split; try assumption.
  unfold noot_eq. rewrite He. reflexivity.
Qed.

Lemma le_ge_strict_or_equal_witness :
  exists e : bool,
    noot_eq (VInt 1) (VInt 2) w0 = Ret (VBool e) w0
    /\ noot_le (VInt 1) (VInt 2) w0 = Ret (VBool (true || e)) w0
    /\ noot_ge (VInt 1) (VInt 2) w0 = Ret (VBool (false || e)) w0.
Proof.
  apply (le_ge_strict_or_equal (VInt 1) (VInt 2) w0 true false); reflexivity.
Defined.

(** C9.  For every pair of Error values, [lt] and [gt] are the recursive
    equality of the two wrapped payloads: the three calls have the same
    outcome in every world, and [lt] and [gt] never take the panic path. *)
Theorem error_ordering_is_payload_equality :
  forall (x y : NootValue) (w : World),
    noot_lt (VError x) (VError y) w = noot_eq x y w
    /\ noot_gt (VError x) (VError y) w = noot_eq x y w
    /\ (forall e : bool,
          noot_eq_impl x y = Some e ->
          noot_lt (VError x) (VError y) w = Ret (VBool e) w
          /\ noot_gt (VError x) (VError y) w = Ret (VBool e) w)
    /\ (forall (st : Z) (w' : World),
          noot_lt (VError x) (VError y) w <> Exit st w'
          /\ noot_gt (VError x) (VError y) w <> Exit st w').
Proof.
  intros x y w.
  assert (Hlt : noot_lt (VError x) (VError y) w = noot_eq x y w).
  { unfold noot_lt, noot_eq, noot_lt_impl. reflexivity. }
  assert (Hgt : noot_gt (VError x) (VError y) w = noot_eq x y w).
  { unfold noot_gt, noot_eq, noot_gt_impl. reflexivity. }
  repeat split; try assumption.
  - rewrite Hlt. unfold noot_eq. rewrite H. reflexivity.
  - rewrite Hgt. unfold noot_eq. rewrite H. reflexivity.
  - rewrite Hlt. unfold noot_eq, bind. destruct (noot_eq_impl x y); discriminate.
  - rewrite Hgt. unfold noot_eq, bind. destruct (noot_eq_impl x y); discriminate.
Qed.

Lemma error_ordering_is_payload_equality_witness :
  noot_lt (VError (VInt 1)) (VError (VInt 2)) w0 = Ret (VBool false) w0
  /\ noot_gt (VError (VInt 1)) (VError (VInt 2)) w0 = Ret (VBool false) w0.
Proof.
  apply (error_ordering_is_payload_equality (VInt 1) (VInt 2) w0). reflexivity.
Defined.

(** ** Arithmetic *)

Lemma wrap64_in_long (z : Z) : in_long z -> wrap64 z = z.
Proof.
  unfold in_long, LONG_MIN, LONG_MAX, wrap64. intros H.
  rewrite Z.mod_small; lia.
Qed.

Lemma wrap64_range (z : Z) : in_long (wrap64 z).
Proof.
  unfold in_long, LONG_MIN, LONG_MAX, wrap64.
  pose proof (Z.mod_pos_bound (z + 2 ^ 63) (2 ^ 64) ltac:(lia)). lia.
Qed.

Ltac promotes_by_computation :=
  intros a r w; repeat split; eexists; reflexivity.

Lemma noot_add_promotes : promotes noot_add.
Proof. promotes_by_computation. Qed.

Lemma noot_sub_promotes : promotes noot_sub.
Proof. promotes_by_computation. Qed.

Lemma noot_mul_promotes : promotes noot_mul.
Proof. promotes_by_computation. Qed.

Lemma noot_div_promotes : promotes noot_div.
Proof. promotes_by_computation. Qed.

Lemma noot_rem_promotes : promotes noot_rem.
Proof. promotes_by_computation. Qed.



(** ** Printing *)

Lemma bind_of_ret {A B : Type} (m : M A) (k : A -> M B) (w w' : World) (a : A) :
  m w = Ret a w' -> bind m k w = k a w'.
Proof.
  intros H. unfold bind. now rewrite H.
Qed.

Lemma join_from_snoc (printed : bool) (texts : list string) (t : string) :
  join_from printed (texts ++ [t])%list
  = join_from printed texts ++ (if printed || nonempty texts then " " else "") ++ t.
Proof.
  revert printed. induction texts as [|x texts IH]; intros printed; simpl.
  - rewrite orb_false_r. now rewrite string_app_nil_r.
  - rewrite IH, orb_true_r. cbn [orb].
    destruct printed; cbn [append]; now rewrite ?string_app_assoc.
Qed.

Lemma print_elem_out (fuel : nat) (v : NootValue) (text : string) (w : World) :
  prints_as fuel v text -> print_elem fuel v w = Ret tt (append_out w text).
Proof.
  intros H. unfold print_elem. now rewrite (bind_of_ret _ _ _ _ _ (H w)).
Qed.

(** The loop over a chain of nodes with present heads, ended by a value that
    is not a List: every element is printed, the loop stops on the final
    tail. *)
Lemma print_list_loop_chain (fuel : nat) (last : NootValue) :
  type_of last <> NootType.List ->
  forall (elems : list NootValue) (texts : list string) (printed : bool) (w : World),
    Forall2 (prints_as fuel) elems texts ->
    print_list_loop (print_elem fuel) printed (noot_list elems last) w
    = Ret (printed || nonempty elems, last)
          (append_out w (join_from printed texts)).
Proof.
  intros Hlast elems texts printed w Hall. revert printed w.
  induction Hall as [|e t elems texts He Hall IH]; intros printed w.
  - simpl. rewrite orb_false_r, append_out_nil.
    destruct last; try reflexivity. now elim Hlast.
  - cbn [noot_list fold_right print_list_loop].
    assert (Hsep : (if printed then printf " " else ret tt) w
                   = Ret tt (append_out w (if printed then " " else ""))).
    { destruct printed; [reflexivity|]. unfold ret. now rewrite append_out_nil. }
    rewrite (bind_of_ret _ _ _ _ _ Hsep).
    rewrite (bind_of_ret _ _ _ _ _ (print_elem_out fuel e t _ He)).
    fold (noot_list elems last). rewrite IH.
    rewrite !append_out_app, orb_true_r. simpl nonempty.
    rewrite ?string_app_assoc. reflexivity.
Qed.

Lemma noot_print_list_unfold (fuel : nat) (h t : option NootValue) (w : World) :
  noot_print (S fuel) 1 [VList h t] w
  = bind
      (printf "[" ;;
       st <- print_list_loop (print_elem fuel) false (VList h t) ;;
       (let (printed, curr) := st in
        (if negb (NootType.eqb (type_of curr) NootType.Nil) then
           (if printed then printf " " else ret tt) ;;
           print_elem fuel curr
         else ret tt) ;;
        printf "]"))
      (fun _ => ret (new_bool true)) w.
Proof. reflexivity. Qed.

(** A List whose nodes carry the elements [elems] (at least one) in
    order, ended by a tail that is not a List, prints as an opening bracket,
    the printed elements separated by single spaces, and a closing bracket
    when the tail is Nil; when the tail is neither a List nor Nil, its
    printed form follows as one more space-separated element before the
    closing bracket. *)
Theorem print_list_chain :
  forall (fuel : nat) (elems : list NootValue) (texts : list string)
         (last : NootValue) (last_text : string),
    elems <> [] ->
    Forall2 (prints_as fuel) elems texts ->
    type_of last <> NootType.List ->
    prints_as fuel last last_text ->
    prints_as (S fuel) (noot_list elems last)
      ("[" ++ join (if NootType.eqb (type_of last) NootType.Nil
                    then texts else (texts ++ [last_text])%list) ++ "]").
Proof.
  intros fuel elems texts last last_text Hne Hall Hlast Hprint w.
  destruct elems as [|e elems]; [now elim Hne|].
  change (noot_list (e :: elems) last)
    with (VList (Some e) (Some (noot_list elems last))).
  rewrite noot_print_list_unfold.
  change (VList (Some e) (Some (noot_list elems last)))
    with (noot_list (e :: elems) last).
  rewrite bind_assoc, bind_printf, bind_assoc.
  rewrite (bind_of_ret _ _ _ _ _
             (print_list_loop_chain fuel last Hlast (e :: elems) texts false _ Hall)).
  cbn [orb nonempty].
  destruct (NootType.eqb (type_of last) NootType.Nil); cbn [negb].
  - rewrite bind_assoc, bind_ret_l, bind_printf. unfold ret, new_bool, join.
    rewrite !append_out_app. reflexivity.
  - rewrite !bind_assoc. 
    assert (Hsep : (if true then printf " " else ret tt) (append_out (append_out w "[") (join_from false texts))
                   = Ret tt (append_out (append_out (append_out w "[") (join_from false texts)) " ")) by reflexivity.
    rewrite (bind_of_ret _ _ _ _ _ Hsep).
    rewrite (bind_of_ret _ _ _ _ _ (print_elem_out fuel last last_text _ Hprint)).
    rewrite bind_printf. unfold ret, new_bool, join.
    rewrite !append_out_app, join_from_snoc.
    inversion Hall; subst. cbn [nonempty orb].
    now rewrite ?string_app_assoc.
Qed.

Lemma prints_int_small (fuel : nat) (i : Z) (text : string) :
  Libc.fmt_d (wrap32 i) = text -> prints_as (S fuel) (VInt i) text.
Proof.
  intros <- w. reflexivity.
Qed.

Lemma prints_nil (fuel : nat) : prints_as (S fuel) VNil "nil".
Proof.
  intros w. reflexivity.
Qed.

(** The two lists of the scenario: elements 1, 2, 3 ended by Nil, and the same
    elements ended by the Int 4. *)
Lemma print_list_chain_witness :
  prints_as 2 (noot_list [VInt 1; VInt 2; VInt 3] VNil) "[1 2 3]"
  /\ prints_as 2 (noot_list [VInt 1; VInt 2; VInt 3] (VInt 4)) "[1 2 3 4]".
Proof.
  split.
  - apply (print_list_chain 1 [VInt 1; VInt 2; VInt 3] ["1"; "2"; "3"] VNil "nil").
    + discriminate.
    + repeat constructor; now apply prints_int_small.
    + discriminate.
    + apply prints_nil.
  - apply (print_list_chain 1 [VInt 1; VInt 2; VInt 3] ["1"; "2"; "3"] (VInt 4) "4").
    + discriminate.
    + repeat constructor; now apply prints_int_small.
    + discriminate.
    + now apply prints_int_small.
Defined.

(** ** Truthiness and assertion *)

(** What the inactive member [Bool] of the union holds does not matter. *)
Lemma noot_is_true_at_any (other : Z) (v : NootValue) :
  noot_is_true_at other v = truthy v.
Proof.
  destruct v as [|b| | | | | | | |]; try reflexivity.
  destruct b; reflexivity.
Qed.

Lemma noot_is_true_truthy (v : NootValue) : noot_is_true v = truthy v.
Proof. apply noot_is_true_at_any. Qed.

(** [noot_panic] prints the banner, then its payload and a newline, then an
    empty message line and the trace, and ends the process. *)
Lemma noot_panic_prints_payload (fuel : nat) (count : Z) (args : list NootValue)
    (w w1 : World) (r : NootValue) :
  noot_print fuel count args (append_out w panic_banner) = Ret r w1 ->
  noot_panic fuel count args w = Exit 1 (append_out w1 (nl ++ panic_text "" w1)).
Proof.
  intros Hprint. unfold noot_panic.
  rewrite bind_printf. fold panic_banner.
  unfold noot_println. rewrite !bind_assoc.
  rewrite (bind_of_ret _ _ _ _ _ Hprint).
  rewrite bind_assoc, bind_printf, bind_ret_l.
  unfold bind. rewrite noot_panic_impl_exits.
  now rewrite append_out_app.
Qed.

Lemma noot_panic_no_return (fuel : nat) (count : Z) (args : list NootValue) (w : World) :
  forall (v : NootValue) (w' : World), noot_panic fuel count args w <> Ret v w'.
Proof.
  intros v w'.
  destruct (noot_print fuel count args (append_out w panic_banner)) as [r w1| | |] eqn:E.
  - rewrite (noot_panic_prints_payload fuel count args w w1 r E). discriminate.
  - unfold noot_panic. rewrite bind_printf. fold panic_banner.
    unfold noot_println. rewrite !bind_assoc. unfold bind at 1. rewrite E. discriminate.
  - unfold noot_panic. rewrite bind_printf. fold panic_banner.
    unfold noot_println. rewrite !bind_assoc. unfold bind at 1. rewrite E. discriminate.
  - unfold noot_panic. rewrite bind_printf. fold panic_banner.
    unfold noot_println. rewrite !bind_assoc. unfold bind at 1. rewrite E. discriminate.
Qed.

(** A call of [noot_panic] followed by anything is that call of [noot_panic]. *)
Lemma noot_panic_absorbs (fuel : nat) (count : Z) (args : list NootValue)
    (k : NootValue -> M unit) (h : unit -> M NootValue) (w : World) :
  bind (bind (noot_panic fuel count args) k) h w = noot_panic fuel count args w.
Proof.
  unfold bind.
  destruct (noot_panic fuel count args w) as [v w'| | |] eqn:E; try reflexivity.
  exfalso. exact (noot_panic_no_return fuel count args w v w' E).
Qed.





(** ** Printing numbers *)

Lemma get_app_right (p q : string) (j : nat) :
  String.get (String.length p + j) (p ++ q) = String.get j q.
Proof.
  induction p as [|c p IH]; simpl; [reflexivity | exact IH].
Qed.

Lemma get_all_zero_or_point (zs : string) :
  all_zero_or_point zs = true ->
  forall j, (j < String.length zs)%nat ->
            exists c, String.get j zs = Some c /\ is_zero_or_point c = true.
Proof.
  induction zs as [|z zs IH]; simpl; intros Hall j Hj; [lia|].
  apply andb_true_iff in Hall. destruct Hall as [Hz Hzs].
  destruct j as [|j].
  - now exists z.
  - apply IH; [assumption | lia].
Qed.

(** The loop steps down over a run of ['0'] and ['.']. *)
Lemma strip_loop_steps (str : string) (i : nat) :
  forall k : nat,
    (forall j, (i < j <= i + k)%nat ->
               exists c, String.get j str = Some c /\ is_zero_or_point c = true) ->
    strip_loop str (i + k) = strip_loop str i.
Proof.
  induction k as [|k IH]; intros Hrun.
  - now rewrite Nat.add_0_r.
  - rewrite Nat.add_succ_r.
    destruct (Hrun (S (i + k)) ltac:(lia)) as (c & Hget & Hc).
    cbn [strip_loop]. rewrite Hget, Hc.
    apply IH. intros j Hj. apply Hrun. lia.
Qed.

Lemma strip_loop_stops (str : string) (i : nat) (c : ascii) :
  String.get i str = Some c -> is_zero_or_point c = false ->
  strip_loop str i = Some i.
Proof.
  intros Hget Hc. destruct i; cbn [strip_loop]; now rewrite Hget, Hc.
Qed.

Lemma substring_app_left (p q : string) :
  substring 0 (String.length p) (p ++ q) = p.
Proof.
  induction p as [|c p IH]; simpl.
  - now destruct q.
  - now rewrite IH.
Qed.

Lemma length_app (p q : string) :
  String.length (p ++ q) = (String.length p + String.length q)%nat.
Proof.
  induction p as [|c p IH]; simpl; [reflexivity | now rewrite IH].
Qed.

Lemma get_zero_or_point (s : string) :
  all_zero_or_point s = true ->
  forall (i : nat) (c : ascii), String.get i s = Some c -> is_zero_or_point c = true.
Proof.
  induction s as [|z s IH]; simpl; intros Hall i c Hget; [discriminate|].
  apply andb_true_iff in Hall. destruct Hall as [Hz Hs].
  destruct i as [|i].
  - now injection Hget as <-.
  - now apply (IH Hs i).
Qed.

(** On a buffer holding only ['0'] and ['.'] the scan never stops inside the
    buffer. *)
Lemma strip_loop_no_stop (s : string) :
  all_zero_or_point s = true -> forall i : nat, strip_loop s i = None.
Proof.
  intros Hall. induction i as [|i IH]; cbn [strip_loop].
  - destruct (String.get 0 s) as [c|] eqn:Hget; [|reflexivity].
    now rewrite (get_zero_or_point s Hall 0 c Hget).
  - destruct (String.get (S i) s) as [c|] eqn:Hget; [|reflexivity].
    now rewrite (get_zero_or_point s Hall (S i) c Hget).
Qed.

Lemma noot_print_real_unfold (fuel : nat) (r : float) (w : World) :
  noot_print (S fuel) 1 [VReal r] w
  = bind (print_real r) (fun _ => ret (new_bool true)) w.
Proof. reflexivity. Qed.

(** A rendering [body ++ c ++ zs] that fits the buffer, where [c] is neither
    ['0'] nor ['.'] and [zs] holds only such characters, is printed as
    [body ++ c]: the scan from the end stops exactly at [c]. *)
Lemma print_real_strips (fuel : nat) (r : float) (body zs : string) (c : ascii) :
  Libc.fmt_f r = body ++ String c zs ->
  (String.length (body ++ String c zs) < 50)%nat ->
  is_zero_or_point c = false ->
  all_zero_or_point zs = true ->
  Libc.until_nul (body ++ String c "") = body ++ String c "" ->
  prints_as (S fuel) (VReal r) (body ++ String c "").
Proof.
  intros Hfmt Hfit Hc Hzs Hnul w.
  rewrite noot_print_real_unfold. unfold print_real.
  rewrite Hfmt. unfold sprintf_into.
  apply Nat.ltb_lt in Hfit. rewrite Hfit.
  rewrite bind_assoc, bind_ret_l.
  set (str := body ++ String c zs) in *.
  assert (Hlen : String.length str = S (String.length body + String.length zs)).
  { unfold str. rewrite length_app. simpl. lia. }
  rewrite Hlen. cbn [Nat.eqb].
  replace (S (String.length body + String.length zs) - 1)%nat
    with (String.length body + String.length zs)%nat by lia.
  assert (Hstop : strip_loop str (String.length body + String.length zs)
                  = Some (String.length body)).
  { rewrite strip_loop_steps.
    - apply (strip_loop_stops str _ c); [|exact Hc].
      unfold str. rewrite <- (Nat.add_0_r (String.length body)).
      now rewrite get_app_right.
    - intros j Hj.
      destruct (get_all_zero_or_point zs Hzs (j - S (String.length body))%nat
                  ltac:(lia)) as (z & Hz & Hzp).
      exists z. split; [|exact Hzp].
      replace j with (String.length body + S (j - S (String.length body)))%nat by lia.
      unfold str. rewrite get_app_right. exact Hz. }
  rewrite Hstop. cbn [lift]. rewrite bind_assoc, bind_ret_l.
  rewrite bind_printf. unfold ret, new_bool.
  unfold Libc.fmt_star_s, Libc.prefix.
  assert (Hpre : substring 0 (String.length body + 1) str = body ++ String c "").
  { unfold str.
    replace (body ++ String c zs) with ((body ++ String c "") ++ zs)
      by (now rewrite string_app_assoc).
    replace (String.length body + 1)%nat with (String.length (body ++ String c ""))
      by (rewrite length_app; reflexivity).
    apply substring_app_left. }
  rewrite Hpre, Hnul.
  replace (String.length body + 1 - String.length (body ++ String c ""))%nat with 0%nat
    by (rewrite length_app; simpl; lia).
  reflexivity.
Qed.

(** A Real whose rendering is not empty and holds only ['0'] and ['.'] has no
    defined output. *)
Lemma print_real_no_stop (fuel : nat) (r : float) (w : World) :
  Libc.fmt_f r <> "" ->
  all_zero_or_point (Libc.fmt_f r) = true ->
  noot_print (S fuel) 1 [VReal r] w = Undef.
Proof.
  intros Hne Hall. rewrite noot_print_real_unfold. unfold print_real, sprintf_into.
  destruct (_ <? 50)%nat; [|reflexivity].
  rewrite bind_assoc, bind_ret_l.
  destruct (Libc.fmt_f r) as [|c s] eqn:Hfmt; [now elim Hne|].
  cbn [String.length Nat.eqb].
  now rewrite (strip_loop_no_stop (String c s) Hall).
Qed.

Ltac by_evaluation :=
  solve [vm_compute; reflexivity | cbn [String.length append]; lia].

(** The printer on the three numbers of the scenario. *)
Lemma print_scenario (fuel : nat) :
  prints_as (S fuel) (VInt 3) "3"
  /\ prints_as (S fuel) (VReal 3%float) "3"
  /\ prints_as (S fuel) (VReal real_3_14) "3.14".
Proof.
  split; [|split].
  - now apply prints_int_small.
  - apply (print_real_strips fuel 3%float "" ".000000" "3"); by_evaluation.
  - apply (print_real_strips fuel real_3_14 "3.1" "0000" "4"); by_evaluation.
Qed.

(** C4.  The Real 0 is rendered as 0.000000, which holds no character other
    than ['0'] and ['.']: the scan from the end passes index 0 and reads the
    byte before the buffer, so the printer has no defined output.  On the
    Real 10, rendered as 10.000000, the scan also strips the zero of the
    integer part and the printer writes 1. *)
Theorem print_real_zero_out_of_bounds :
  forall (fuel : nat) (w : World),
    Libc.fmt_f 0%float = "0.000000"
    /\ strip_loop "0.000000" 7 = None
    /\ noot_print (S fuel) 1 [VReal 0%float] w = Undef
    /\ Libc.fmt_f 10%float = "10.000000"
    /\ noot_print (S fuel) 1 [VReal 10%float] w = Ret (VBool true) (append_out w "1").
Proof.
  intros fuel w.
  split; [vm_compute; reflexivity|].
  split; [reflexivity|].
  split; [|split; [vm_compute; reflexivity|]].
  - apply print_real_no_stop; vm_compute; [discriminate | reflexivity].
  - apply (print_real_strips fuel 10%float "" "0.000000" "1"); by_evaluation.
Qed.

(** ** Missing arguments *)

Lemma bin_fn_wraps_with_nil (op : NootValue -> NootValue -> M NootValue) :
  wraps_with_nil op (bin_fn op).
Proof.
  repeat split.
Qed.

Lemma noot_print_nil_for_missing (fuel : nat) : nil_for_missing (noot_print fuel).
Proof.
  intros args w. destruct fuel; reflexivity.
Qed.

Lemma noot_panic_nil_for_missing (fuel : nat) : nil_for_missing (noot_panic fuel).
Proof.
  intros args w. unfold noot_panic, noot_println.
  rewrite !bind_printf, !bind_assoc.
  unfold bind at 1. rewrite noot_print_nil_for_missing. reflexivity.
Qed.

(** Print, println, panic, not, assert and the eleven wrappers substitute Nil
    for what is missing: with a count of zero print writes nil and returns
    true, not returns true, assert panics on Nil, and each wrapper applies
    its operator to Nil in place of each absent operand. *)
Lemma nil_substitution (fuel : nat) (args : list NootValue) (w : World) :
  noot_print (S fuel) 0 args w = Ret (VBool true) (append_out w "nil")
  /\ noot_println (S fuel) 0 args w = Ret (VBool true) (append_out w ("nil" ++ nl))
  /\ noot_not 0 args w = Ret (VBool true) w
  /\ noot_assert fuel 0 args w = noot_panic fuel 1 [NOOT_NIL] w
  /\ nil_for_missing (noot_print fuel)
  /\ nil_for_missing (noot_println fuel)
  /\ nil_for_missing (noot_panic fuel)
  /\ nil_for_missing noot_not
  /\ nil_for_missing (noot_assert fuel)
  /\ Forall (fun p => wraps_with_nil (fst p) (snd p) /\ nil_for_missing (snd p))
            binary_wrappers.
Proof.
  assert (Hassert : forall args' w',
             noot_assert fuel 0 args' w' = noot_panic fuel 1 [NOOT_NIL] w').
  { intros args' w'. unfold noot_assert. cbn [Z.leb Z.compare].
    rewrite bind_ret_l. change (noot_is_true NOOT_NIL) with false. cbn [negb].
    rewrite noot_panic_absorbs. apply noot_panic_nil_for_missing. }
  assert (Hprint : noot_print (S fuel) 0 args w
                   = Ret (VBool true) (append_out w "nil")) by reflexivity.
  split; [exact Hprint|].
  split.
  { unfold noot_println. rewrite (bind_of_ret _ _ _ _ _ Hprint), bind_printf.
    unfold ret. now rewrite append_out_app. }
  split; [reflexivity|].
  split; [apply Hassert|].
  split; [apply noot_print_nil_for_missing|].
  split.
  { intros args' w'. unfold noot_println, bind.
    now rewrite noot_print_nil_for_missing. }
  split; [apply noot_panic_nil_for_missing|].
  split; [intros args' w'; reflexivity|].
  split.
  { intros args' w'. rewrite Hassert.
    unfold noot_assert.
    change (1 <=? 1) with true. change (2 <=? 1) with false. cbv iota.
    cbn [arg nth_error lift].
    rewrite bind_ret_l. change (noot_is_true NOOT_NIL) with false. cbn [negb].
    now rewrite noot_panic_absorbs. }
  repeat constructor.
Qed.

(** C10.  [noot_error] is called with a count and an argument pointer like
    the other primitives but never reads the count: in every world and for
    every count it returns an Error wrapping the value the pointer
    designates.  Called with a count of zero it wraps that value (here the
    Int 5) instead of Nil, so it does not substitute Nil for a missing
    argument. *)
Theorem noot_error_ignores_count :
  (forall (count : Z) (inner : NootValue) (w : World),
      noot_error count inner w = Ret (VError inner) w)
  /\ noot_error 0 (VInt 5) w0 = Ret (VError (VInt 5)) w0
  /\ noot_error 1 NOOT_NIL w0 = Ret (VError VNil) w0
  /\ ~ nil_for_missing_at noot_error.
Proof.
  repeat split.
  intros H. specialize (H (VInt 5) w0). discriminate H.
Qed.

(** ** Lists the printer does not finish on *)

(** A node without head, the other representation of the empty list, stops
    the loop at once and is then printed again as the trailing element: the
    recursion is on the same value, so no amount of fuel suffices. *)
Lemma print_headless_node_never_returns (t : option NootValue) :
  forall (fuel : nat) (w : World), noot_print fuel 1 [VList None t] w = Timeout.
Proof.
  induction fuel as [|fuel IH]; intros w.
  - reflexivity.
  - rewrite noot_print_list_unfold.
    rewrite bind_assoc, bind_printf, bind_assoc.
    cbn [print_list_loop]. rewrite bind_ret_l.
    cbn [type_of NootType.eqb negb].
    rewrite !bind_assoc, bind_ret_l.
    unfold print_elem. rewrite !bind_assoc.
    unfold bind at 1. now rewrite IH.
Qed.

(** The loop over a chain of nodes that ends on a node without head stops on
    that node, if it returns at all. *)
Lemma print_list_loop_reaches_headless (pr : NootValue -> M unit)
    (t : option NootValue) (elems : list NootValue) :
  forall (printed : bool) (w : World),
    match print_list_loop pr printed (noot_list elems (VList None t)) w with
    | Ret (_, curr) _ => curr = VList None t
    | _ => True
    end.
Proof.
  induction elems as [|e elems IH]; intros printed w.
  - reflexivity.
  - cbn [noot_list fold_right print_list_loop]. fold (noot_list elems (VList None t)).
    unfold bind at 1.
    destruct ((if printed then printf " " else ret tt) w) as [u w1| | |]; try exact I.
    unfold bind at 1. destruct (pr e w1) as [u' w2| | |]; try exact I.
    apply IH.
Qed.

(** A List ended by a node without head is never printed to its end. *)
Lemma print_headless_end_no_return (t : option NootValue) (elems : list NootValue) :
  forall (fuel : nat) (w : World) (v : NootValue) (w' : World),
    noot_print fuel 1 [noot_list elems (VList None t)] w <> Ret v w'.
Proof.
  intros fuel w v w'. destruct elems as [|e elems].
  - cbn [noot_list fold_right]. rewrite print_headless_node_never_returns. discriminate.
  - destruct fuel as [|fuel]; [discriminate|].
    change (noot_list (e :: elems) (VList None t))
      with (VList (Some e) (Some (noot_list elems (VList None t)))).
    rewrite noot_print_list_unfold.
    change (VList (Some e) (Some (noot_list elems (VList None t))))
      with (noot_list (e :: elems) (VList None t)).
    rewrite bind_assoc, bind_printf, bind_assoc.
    pose proof (print_list_loop_reaches_headless (print_elem fuel) t (e :: elems)
                  false (append_out w "[")) as Hloop.
    unfold bind at 1.
    destruct (print_list_loop (print_elem fuel) false
                (noot_list (e :: elems) (VList None t)) (append_out w "["))
      as [[printed curr] w1| | |]; try discriminate.
    subst curr. cbn [type_of NootType.eqb negb].
    rewrite !bind_assoc. unfold bind at 1.
    destruct ((if printed then printf " " else ret tt) w1) as [u w2| | |];
      try discriminate.
    unfold print_elem. rewrite !bind_assoc. unfold bind at 1.
    rewrite print_headless_node_never_returns. discriminate.
Qed.

(** C6.  A List ended by a node whose head is absent, the empty list itself
    included, is not printed as the claim says: the loop stops on that node,
    which is then taken for a trailing element and printed by a call of the
    printer on the same node, without end.  For every list of elements ended
    by such a node the printer never returns, whatever the depth of
    recursion; on the empty list, and on the elements 1, 2, 3 ended by an
    empty list, the recursion is cut at every depth. *)
Theorem print_list_headless_end :
  forall (elems : list NootValue) (t : option NootValue) (w : World),
    (forall (fuel : nat) (v : NootValue) (w' : World),
        noot_print fuel 1 [noot_list elems (VList None t)] w <> Ret v w')
    /\ (forall fuel : nat, noot_print fuel 1 [VList None t] w = Timeout)
    /\ (forall fuel : nat,
           noot_print fuel 1 [noot_list [VInt 1; VInt 2; VInt 3] (VList None None)] w
           = Timeout).
Proof.
  intros elems t w. split; [|split].
  - intros fuel v w'. apply print_headless_end_no_return.
  - intros fuel. apply print_headless_node_never_returns.
  - intros fuel. destruct fuel as [|[|fuel]]; [reflexivity | reflexivity |].
    change (noot_list [VInt 1; VInt 2; VInt 3] (VList None None))
      with (VList (Some (VInt 1))
              (Some (noot_list [VInt 2; VInt 3] (VList None None)))).
    rewrite noot_print_list_unfold.
    rewrite bind_assoc, bind_printf, bind_assoc.
    cbn [noot_list fold_right print_list_loop].
    repeat (rewrite ?bind_assoc;
            first [ rewrite bind_printf
                  | rewrite bind_ret_l
                  | rewrite (bind_of_ret _ _ _ _ _
                               (print_elem_out (S fuel) _ _ _
                                  (prints_int_small fuel _ _ eq_refl))) ]).
    cbn [type_of NootType.eqb negb].
    repeat (rewrite ?bind_assoc; first [ rewrite bind_printf | rewrite bind_ret_l ]).
    unfold print_elem. rewrite !bind_assoc. unfold bind at 1.
    now rewrite print_headless_node_never_returns.
Qed.

(** * Further properties of the header *)

(** ** Type errors of the arithmetic operators *)

(** A type panic raised by an operator on the operands [a] and [b]. *)
Lemma operator_type_panic (fmt text : string) (a b : NootValue) (w : World) :
  Libc.sprintf_s fmt [noot_type_names (type_of a); noot_type_names (type_of b)] = text ->
  (String.length text < 256)%nat ->
  bind (noot_binary_type_panic fmt (type_of a) (type_of b))
       (fun _ => @fall_off_end NootValue) w
  = Exit 1 (append_out w (panic_text text w)).
Proof.
  intros Htext Hlen. unfold bind.
  rewrite noot_binary_type_panic_exits by (rewrite Htext; exact Hlen).
  now rewrite Htext.
Qed.

(** When an operand is neither an Int nor a Real, each of the five operators
    ends the process with status 1 after printing its message, which names
    the discriminants of the left and of the right operand in this order,
    and the trace.  The message of [mul] reads "subtract multiply"; [rem]
    uses the message of [div]. *)
Theorem arithmetic_type_panics :
  forall (a b : NootValue) (w : World),
    numeric (type_of a) && numeric (type_of b) = false ->
    let names := noot_type_names (type_of a) ++ " and " ++ noot_type_names (type_of b) in
    noot_add a b w
    = Exit 1 (append_out w (panic_text ("Attempted to add incompatible types " ++ names) w))
    /\ noot_sub a b w
       = Exit 1 (append_out w
                   (panic_text ("Attempted to subtract incompatible types " ++ names) w))
    /\ noot_mul a b w
       = Exit 1 (append_out w
                   (panic_text ("Attempted to subtract multiply types " ++ names) w))
    /\ noot_div a b w
       = Exit 1 (append_out w
                   (panic_text ("Attempted to divide incompatible types " ++ names) w))
    /\ noot_rem a b w
       = Exit 1 (append_out w
                   (panic_text ("Attempted to divide incompatible types " ++ names) w)).
Proof.
  intros a b w Hnum names. subst names.
  repeat split.
  all: destruct a, b; try discriminate Hnum;
    cbv beta iota delta [noot_add noot_sub noot_mul noot_div noot_rem];
    (apply operator_type_panic; [reflexivity | vm_compute; lia]).
Qed.

Lemma arithmetic_type_panics_witness :
  noot_mul (VBool true) (VReal 2%float) (mkWorld "" ["main"] 1)
  = Exit 1 (mkWorld ("Attempted to subtract multiply types bool and real" ++ nl
                       ++ "at main" ++ nl) ["main"] 1).
Proof.
  apply (arithmetic_type_panics (VBool true) (VReal 2%float) (mkWorld "" ["main"] 1)).
  reflexivity.
Defined.

(** ** Arithmetic on numbers *)

Lemma long_div_defined (x y : Z) :
  y <> 0 -> ~ (x = LONG_MIN /\ y = -1) ->
  long_div x y = Some (Z.quot x y) /\ long_rem x y = Some (Z.rem x y).
Proof.
  intros Hy Hov. unfold long_div, long_rem.
  assert (Hguard : (y =? 0) || ((x =? LONG_MIN) && (y =? -1)) = false).
  { apply orb_false_iff. split; [now apply Z.eqb_neq|].
    apply andb_false_iff.
    destruct (Z.eqb_spec x LONG_MIN) as [Hx|Hx]; [right|now left].
    apply Z.eqb_neq. intros Hy1. apply Hov. now split. }
  now rewrite Hguard.
Qed.

(** On two numbers the five operators never take the panic path and leave
    the world as it is.  [add], [sub] and [mul] always return; [div] and
    [rem] return unless both operands are Ints with a zero divisor or the
    quotient [LONG_MIN / -1].  The result is an Int when both operands are
    Ints and a Real otherwise. *)
Theorem arithmetic_on_numbers :
  forall (a b : NootValue) (w : World),
    numeric (type_of a) = true -> numeric (type_of b) = true ->
    let result_type :=
      match a, b with
      | VInt _, VInt _ => NootType.Int
      | _, _ => NootType.Real
      end in
    let divisible :=
      match a, b with
      | VInt x, VInt y => y <> 0 /\ ~ (x = LONG_MIN /\ y = -1)
      | _, _ => True
      end in
    (exists v, noot_add a b w = Ret v w /\ type_of v = result_type)
    /\ (exists v, noot_sub a b w = Ret v w /\ type_of v = result_type)
    /\ (exists v, noot_mul a b w = Ret v w /\ type_of v = result_type)
    /\ (divisible ->
        (exists v, noot_div a b w = Ret v w /\ type_of v = result_type)
        /\ (exists v, noot_rem a b w = Ret v w /\ type_of v = result_type))
    /\ (~ divisible -> noot_div a b w = Undef /\ noot_rem a b w = Undef).
Proof.
  intros a b w Ha Hb.
  destruct a as [| |x| | | | | | |]; try discriminate Ha;
    destruct b as [| |y| | | | | | |]; try discriminate Hb; cbv zeta.
  - (* Int, Int *)
    split; [eexists; split; reflexivity|].
    split; [eexists; split; reflexivity|].
    split; [eexists; split; reflexivity|].
    split.
    + intros [Hy Hov]. destruct (long_div_defined x y Hy Hov) as [Hd Hr].
      unfold noot_div, noot_rem. rewrite Hd, Hr.
      split; eexists; split; reflexivity.
    + intros Hnot. unfold noot_div, noot_rem, long_div, long_rem.
      destruct ((y =? 0) || ((x =? LONG_MIN) && (y =? -1))) eqn:Hg;
        [split; reflexivity|].
      exfalso. apply Hnot. apply orb_false_iff in Hg. destruct Hg as [Hz Hm].
      split; [now apply Z.eqb_neq|].
      intros [-> ->]. discriminate Hm.
  - repeat split; try (eexists; split; reflexivity);
      exfalso; match goal with H : ~ True |- _ => apply H; exact I end.
  - repeat split; try (eexists; split; reflexivity);
      exfalso; match goal with H : ~ True |- _ => apply H; exact I end.
  - repeat split; try (eexists; split; reflexivity);
      exfalso; match goal with H : ~ True |- _ => apply H; exact I end.
Qed.

Lemma arithmetic_on_numbers_witness :
  (exists v, noot_div (VInt 7) (VInt 2) w0 = Ret v w0 /\ type_of v = NootType.Int)
  /\ (exists v, noot_rem (VInt 7) (VInt 2) w0 = Ret v w0 /\ type_of v = NootType.Int).
Proof.
  apply (arithmetic_on_numbers (VInt 7) (VInt 2) w0); try reflexivity.
  split; [discriminate | intros [H _]; discriminate H].
Defined.

(** Quotient and remainder fit together: for Ints [a] and [b] on which the
    division is defined, multiplying the quotient by [b] and adding the
    remainder, with the operators of the runtime, gives [a] back. *)
Theorem div_rem_reconstruct :
  forall (a b : Z) (w : World),
    in_long a -> in_long b ->
    b <> 0 -> ~ (a = LONG_MIN /\ b = -1) ->
    exists q r p : NootValue,
      noot_div (VInt a) (VInt b) w = Ret q w
      /\ noot_rem (VInt a) (VInt b) w = Ret r w
      /\ noot_mul q (VInt b) w = Ret p w
      /\ noot_add p r w = Ret (VInt a) w.
Proof.
  intros a b w Ha Hb Hnz Hov.
  destruct (long_div_defined a b Hnz Hov) as [Hd Hr].
  exists (VInt (Z.quot a b)), (VInt (Z.rem a b)), (VInt (Z.quot a b * b)).
  unfold noot_div, noot_rem. rewrite Hd, Hr.
  split; [reflexivity|]. split; [reflexivity|].
  pose proof (Z.quot_rem' a b) as Hqr.
  pose proof (Z.rem_sign_mul a b Hnz) as Hsign.
  pose proof (Z.rem_bound_abs a b Hnz) as Hbound.
  assert (Hprod : in_long (Z.quot a b * b)).
  { unfold in_long, LONG_MIN, LONG_MAX in *. nia. }
  split.
  - unfold noot_mul, new_int, ret. now rewrite (wrap64_in_long _ Hprod).
  - unfold noot_add, new_int, ret.
    replace (Z.quot a b * b + Z.rem a b) with a by lia.
    now rewrite (wrap64_in_long a Ha).
Qed.

Lemma div_rem_reconstruct_witness :
  exists q r p : NootValue,
    noot_div (VInt (-7)) (VInt 2) w0 = Ret q w0
    /\ noot_rem (VInt (-7)) (VInt 2) w0 = Ret r w0
    /\ noot_mul q (VInt 2) w0 = Ret p w0
    /\ noot_add p r w0 = Ret (VInt (-7)) w0.
Proof.
  apply (div_rem_reconstruct (-7) 2 w0);
    unfold in_long, LONG_MIN, LONG_MAX; try lia.
Defined.

(** ** Negation *)

Lemma float_opp_involutive (x : float) : (- - x)%float = x.
Proof.
  rewrite <- (SF2Prim_Prim2SF (- - x)%float), !opp_spec.
  rewrite <- (SF2Prim_Prim2SF x) at 2.
  f_equal. destruct (Prim2SF x); simpl; now rewrite ?negb_involutive.
Qed.

(** Negating twice gives the number back: for every Real, and for every Int
    other than [LONG_MIN], whose opposite is not a [long]. *)
Theorem noot_neg_involutive :
  forall (v : NootValue) (w : World),
    match v with
    | VInt i => LONG_MIN < i <= LONG_MAX
    | VReal _ => True
    | _ => False
    end ->
    exists n : NootValue,
      noot_neg v w = Ret n w
      /\ type_of n = type_of v
      /\ noot_neg n w = Ret v w.
Proof.
  intros v w Hv. destruct v as [| |i|r| | | | | |]; try contradiction.
  - exists (VInt (- i)).
    assert (Hneg : in_long (- i))
      by (unfold in_long, LONG_MIN, LONG_MAX in *; lia).
    assert (Hi : in_long i)
      by (unfold in_long, LONG_MIN, LONG_MAX in *; lia).
    unfold noot_neg, new_int, ret.
    rewrite (wrap64_in_long _ Hneg), Z.opp_involutive, (wrap64_in_long _ Hi).
    repeat split.
  - exists (VReal (- r)%float).
    unfold noot_neg, new_real, ret. rewrite float_opp_involutive.
    repeat split.
Qed.

Lemma noot_neg_involutive_witness :
  exists n : NootValue,
    noot_neg (VInt 5) w0 = Ret n w0
    /\ type_of n = type_of (VInt 5)
    /\ noot_neg n w0 = Ret (VInt 5) w0.
Proof.
  apply (noot_neg_involutive (VInt 5) w0).
  unfold LONG_MIN, LONG_MAX. lia.
Defined.

(** Negating a value that is neither an Int nor a Real ends the process with
    status 1 after printing "Attempted to negate" with the name of its
    discriminant, and the trace. *)
Theorem noot_neg_type_panics :
  forall (v : NootValue) (w : World),
    numeric (type_of v) = false ->
    noot_neg v w
    = Exit 1 (append_out w
        (panic_text ("Attempted to negate " ++ noot_type_names (type_of v)) w)).
Proof.
  intros v w Hv.
  destruct v; try discriminate Hv;
    unfold noot_neg, noot_unary_type_panic, sprintf_into, bind;
    cbn [type_of noot_type_names Libc.sprintf_s];
    match goal with
    | |- context [(String.length ?s <? 256)%nat] =>
        replace (String.length s <? 256)%nat with true by (vm_compute; reflexivity)
    end;
    unfold ret; rewrite noot_panic_impl_exits; reflexivity.
Qed.

Lemma noot_neg_type_panics_witness :
  noot_neg (VString "a") w0
  = Exit 1 (mkWorld ("Attempted to negate string" ++ nl) [] 0).
Proof.
  apply (noot_neg_type_panics (VString "a") w0). reflexivity.
Defined.

(** ** Equality across and within discriminants *)

Lemma eq_string_loop_eqb (sa : string) :
  forall sb : string,
    String.length sa = String.length sb ->
    eq_string_loop sa sb = Some (String.eqb sa sb).
Proof.
  induction sa as [|ac sa IH]; intros [|bc sb] Hlen; try discriminate Hlen.
  - reflexivity.
  - cbn [eq_string_loop String.eqb]. injection Hlen as Hlen.
    destruct (Ascii.eqb ac bc); [now apply IH | reflexivity].
Qed.

Lemma string_eqb_length (sa : string) :
  forall sb : string,
    (String.length sa =? String.length sb)%nat = false -> String.eqb sa sb = false.
Proof.
  induction sa as [|ac sa IH]; intros [|bc sb] Hlen; try reflexivity.
  - discriminate Hlen.
  - cbn [String.eqb]. rewrite (IH sb Hlen). apply andb_false_r.
Qed.

(** Two Strings are equal exactly when they hold the same bytes: [eq] always
    returns, true when the two byte sequences are the same and false
    otherwise, and [neq] returns the opposite. *)
Theorem string_equality_is_bytewise :
  forall (sa sb : string) (w : World),
    (sa = sb -> noot_eq (VString sa) (VString sb) w = Ret (VBool true) w
                /\ noot_neq (VString sa) (VString sb) w = Ret (VBool false) w)
    /\ (sa <> sb -> noot_eq (VString sa) (VString sb) w = Ret (VBool false) w
                    /\ noot_neq (VString sa) (VString sb) w = Ret (VBool true) w).
Proof.
  intros sa sb w.
  assert (H : noot_eq_impl (VString sa) (VString sb) = Some (String.eqb sa sb)).
  { cbn [noot_eq_impl].
    destruct (String.length sa =? String.length sb)%nat eqn:Hlen.
    - apply eq_string_loop_eqb. now apply Nat.eqb_eq.
    - now rewrite (string_eqb_length sa sb Hlen). }
  unfold noot_eq, noot_neq. rewrite H. cbn [lift]. rewrite !bind_ret_l.
  split; intros Heq.
  - apply String.eqb_eq in Heq. rewrite Heq. split; reflexivity.
  - apply String.eqb_neq in Heq. rewrite Heq. split; reflexivity.
Qed.

Lemma string_equality_is_bytewise_witness :
  noot_eq (VString "ab") (VString "ac") w0 = Ret (VBool false) w0
  /\ noot_neq (VString "ab") (VString "ac") w0 = Ret (VBool true) w0.
Proof.
  apply (string_equality_is_bytewise "ab" "ac" w0). discriminate.
Defined.

(** Values of different discriminants, other than an Int with a Real, are
    not equal: when the left operand is neither a List nor a Tree, [eq]
    returns false and [neq] true, in an unchanged world; no type panic is
    raised, unlike for the ordering operators. *)
Theorem equality_across_types :
  forall (a b : NootValue) (w : World),
    type_of a <> type_of b ->
    numeric (type_of a) && numeric (type_of b) = false ->
    type_of a <> NootType.List -> type_of a <> NootType.Tree ->
    noot_eq a b w = Ret (VBool false) w
    /\ noot_neq a b w = Ret (VBool true) w.
Proof.
  intros a b w Hdiff Hnum Hlist Htree.
  destruct a; destruct b; cbn [type_of] in *;
    try (now elim Hdiff); try (now elim Hlist); try (now elim Htree);
    try discriminate Hnum; split; reflexivity.
Qed.

Lemma equality_across_types_witness :
  noot_eq (VInt 1) (VString "1") w0 = Ret (VBool false) w0
  /\ noot_neq (VInt 1) (VString "1") w0 = Ret (VBool true) w0.
Proof.
  apply (equality_across_types (VInt 1) (VString "1") w0);
    try discriminate; reflexivity.
Defined.

Lemma SFcompare_antisym (x y : spec_float) :
  SFcompare y x = option_map CompOpp (SFcompare x y).
Proof.
  destruct x as [sx|sx| |sx mx ex], y as [sy|sy| |sy my ey]; simpl;
    try (destruct sx); try (destruct sy); try reflexivity.
  - rewrite (Z.compare_antisym ex ey). destruct (ex ?= ey); simpl; try reflexivity.
    do 2 f_equal. symmetry. exact (Pos.compare_cont_antisym mx my Eq).
  - rewrite (Z.compare_antisym ex ey). destruct (ex ?= ey); simpl; try reflexivity.
    f_equal. symmetry. exact (Pos.compare_cont_antisym mx my Eq).
Qed.

Lemma float_eqb_sym (x y : float) : (x =? y)%float = (y =? x)%float.
Proof.
  rewrite !eqb_spec. unfold SFeqb.
  rewrite (SFcompare_antisym (Prim2SF x) (Prim2SF y)).
  destruct (SFcompare (Prim2SF x) (Prim2SF y)) as [[| |]|]; reflexivity.
Qed.

Lemma noot_eq_impl_sym (a : NootValue) :
  forall (b : NootValue) (e e' : bool),
    noot_eq_impl a b = Some e -> noot_eq_impl b a = Some e' -> e = e'.
Proof.
  induction a as [|x|x|x|sa|h t|d l r|f|c f|x IH];
    intros b e e' H1 H2; destruct b as [|y|y|y|sb|h' t'|d' l' r'|g|c' g|y];
    cbn [noot_eq_impl type_of NootType.eqb] in H1, H2;
    try congruence.
  - destruct x, y; cbn in H1, H2; congruence.
  - rewrite Z.eqb_sym in H1. congruence.
  - rewrite float_eqb_sym in H1. congruence.
  - rewrite float_eqb_sym in H1. congruence.
  - rewrite float_eqb_sym in H1. congruence.
  - rewrite Nat.eqb_sym in H2.
    destruct (String.length sa =? String.length sb)%nat eqn:Hlen; [|congruence].
    apply Nat.eqb_eq in Hlen.
    rewrite (eq_string_loop_eqb sa sb Hlen) in H1.
    rewrite (eq_string_loop_eqb sb sa (eq_sym Hlen)) in H2.
    rewrite String.eqb_sym in H1. congruence.
  - rewrite N.eqb_sym in H1. congruence.
  - rewrite N.eqb_sym in H1. congruence.
  - exact (IH y e e' H1 H2).
Qed.

(** Equality does not depend on the order of its operands: when [eq(a,b)]
    returns a boolean, [eq(b,a)] returns the same boolean, or has no result
    at all (a List or a Tree is then reached as a left operand, for which
    [noot_eq_impl] has no case). *)
Theorem equality_symmetric :
  forall (a b : NootValue) (w : World) (e : bool),
    noot_eq a b w = Ret (VBool e) w ->
    noot_eq b a w = Ret (VBool e) w \/ noot_eq b a w = Undef.
Proof.
  intros a b w e H. unfold noot_eq, bind in *.
  destruct (noot_eq_impl a b) as [x|] eqn:Hab; [|discriminate H].
  cbn in H. injection H as <-.
  destruct (noot_eq_impl b a) as [y|] eqn:Hba; [left|right; reflexivity].
  cbn. now rewrite (noot_eq_impl_sym a b x y Hab Hba).
Qed.

Lemma equality_symmetric_witness :
  noot_eq (VReal 2%float) (VInt 2) w0 = Ret (VBool true) w0
  \/ noot_eq (VReal 2%float) (VInt 2) w0 = Undef.
Proof.
  apply (equality_symmetric (VInt 2) (VReal 2%float) w0 true).
  vm_compute. reflexivity.
Defined.

(** ** Ordering *)

Lemma compare_type_panic {A : Type} (a b : NootValue) (w : World) :
  bind (noot_binary_type_panic compare_msg (type_of a) (type_of b))
       (fun _ => @fall_off_end A) w
  = Exit 1 (append_out w
      (panic_text ("Attempted to compare incompatible types "
                     ++ noot_type_names (type_of a) ++ " and "
                     ++ noot_type_names (type_of b)) w)).
Proof.
  unfold bind.
  rewrite noot_binary_type_panic_exits
    by (destruct a, b; vm_compute; lia).
  destruct a, b; reflexivity.
Qed.

(** On a pair of discriminants the ordering does not accept (anything but
    two Bools, two numbers, two Strings, two Functions, two Closures or two
    Errors) each of [lt], [gt], [le] and [ge] ends the process with status 1
    after printing the comparison message, which names the two
    discriminants in the order of the operands, and the trace. *)
Theorem ordering_type_panics :
  forall (a b : NootValue) (w : World),
    comparable (type_of a) (type_of b) = false ->
    let panicked :=
      Exit 1 (append_out w
        (panic_text ("Attempted to compare incompatible types "
                       ++ noot_type_names (type_of a) ++ " and "
                       ++ noot_type_names (type_of b)) w)) in
    noot_lt a b w = panicked /\ noot_gt a b w = panicked
    /\ noot_le a b w = panicked /\ noot_ge a b w = panicked.
Proof.
  intros a b w Hcmp panicked. subst panicked.
  assert (Hlt : noot_lt_impl a b w
                = Exit 1 (append_out w
                    (panic_text ("Attempted to compare incompatible types "
                                   ++ noot_type_names (type_of a) ++ " and "
                                   ++ noot_type_names (type_of b)) w))).
  { rewrite <- (@compare_type_panic bool a b w).
    destruct a, b; try discriminate Hcmp; reflexivity. }
  assert (Hgt : noot_gt_impl a b w
                = Exit 1 (append_out w
                    (panic_text ("Attempted to compare incompatible types "
                                   ++ noot_type_names (type_of a) ++ " and "
                                   ++ noot_type_names (type_of b)) w))).
  { rewrite <- (@compare_type_panic bool a b w).
    destruct a, b; try discriminate Hcmp; reflexivity. }
  unfold noot_lt, noot_gt, noot_le, noot_ge, bind.
  rewrite Hlt, Hgt. repeat split.
Qed.

Lemma ordering_type_panics_witness :
  noot_le VNil (VInt 1) w0
  = Exit 1 (mkWorld ("Attempted to compare incompatible types nil and int" ++ nl) [] 0).
Proof.
  apply (ordering_type_panics VNil (VInt 1) w0). reflexivity.
Defined.

(** On two Ints the four ordering operators are the four orderings of the
    integers: they return, in an unchanged world, whether [x < y], [x <= y],
    [x > y], [x >= y]. *)
Theorem int_ordering :
  forall (x y : Z) (w : World),
    noot_lt (VInt x) (VInt y) w = Ret (VBool (x <? y)) w
    /\ noot_le (VInt x) (VInt y) w = Ret (VBool (x <=? y)) w
    /\ noot_gt (VInt x) (VInt y) w = Ret (VBool (x >? y)) w
    /\ noot_ge (VInt x) (VInt y) w = Ret (VBool (x >=? y)) w.
Proof.
  intros x y w.
  unfold noot_lt, noot_le, noot_gt, noot_ge, noot_lt_impl, noot_gt_impl.
  rewrite !bind_ret_l. cbn [noot_eq_impl lift].
  rewrite Z.gtb_ltb, Z.geb_leb.
  repeat split.
  - destruct (Z.ltb_spec x y), (Z.leb_spec x y); try lia; try reflexivity.
    rewrite bind_ret_l. unfold ret, new_bool. f_equal. f_equal.
    apply Z.eqb_eq. lia.
    rewrite bind_ret_l. unfold ret, new_bool. f_equal. f_equal.
    apply Z.eqb_neq. lia.
  - destruct (Z.ltb_spec y x), (Z.leb_spec y x); try lia; try reflexivity.
    rewrite bind_ret_l. unfold ret, new_bool. f_equal. f_equal.
    apply Z.eqb_eq. lia.
    rewrite bind_ret_l. unfold ret, new_bool. f_equal. f_equal.
    apply Z.eqb_neq. lia.
Qed.

(** ** Ordering of Strings *)

(** The loop condition of the String ordering does not depend on the index:
    it holds exactly when neither String is empty. *)
Lemma string_loop_cond_lengths (i alen blen : nat) :
  string_loop_cond i alen blen = negb (alen =? 0)%nat && negb (blen =? 0)%nat.
Proof.
  unfold string_loop_cond.
  destruct alen as [|alen], blen as [|blen]; cbn [Nat.eqb negb andb].
  - destruct (_ <? _); reflexivity.
  - assert (H : (Z.b2z (i <? 0)%nat <? Z.of_nat (S blen)) = true)
      by (apply Z.ltb_lt; cbn [Nat.ltb Nat.leb Z.b2z]; lia).
    now rewrite H.
  - assert (H : (Z.b2z (i <? S alen)%nat <? Z.of_nat 0) = false)
      by (apply Z.ltb_ge; destruct (i <? S alen)%nat; cbn; lia).
    now rewrite H.
  - destruct (_ <? _); reflexivity.
Qed.

(** Over a common prefix of two non-empty Strings the loop only advances. *)
Lemma cmp_string_loop_prefix (byte_cmp : ascii -> ascii -> bool) (len_cmp : bool)
    (alen blen : nat) (p : string) :
  (0 < alen)%nat -> (0 < blen)%nat ->
  forall (i : nat) (sa sb : string),
    cmp_string_loop byte_cmp len_cmp alen blen i (p ++ sa) (p ++ sb)
    = cmp_string_loop byte_cmp len_cmp alen blen (i + String.length p) sa sb.
Proof.
  intros Ha Hb. induction p as [|c p IH]; intros i sa sb.
  - cbn [append String.length]. now rewrite Nat.add_0_r.
  - cbn [append String.length cmp_string_loop].
    rewrite string_loop_cond_lengths.
    destruct alen; [lia|]. destruct blen; [lia|]. cbn [Nat.eqb negb andb].
    rewrite Ascii.eqb_refl, IH. f_equal. lia.
Qed.

Lemma cmp_string_loop_differ (byte_cmp : ascii -> ascii -> bool) (len_cmp : bool)
    (alen blen i : nat) (ca cb : ascii) (ra rb : string) :
  (0 < alen)%nat -> (0 < blen)%nat -> ca <> cb ->
  cmp_string_loop byte_cmp len_cmp alen blen i (String ca ra) (String cb rb)
  = Some (byte_cmp ca cb).
Proof.
  intros Ha Hb Hdiff. cbn [cmp_string_loop].
  rewrite string_loop_cond_lengths.
  destruct alen; [lia|]. destruct blen; [lia|]. cbn [Nat.eqb negb andb].
  apply Ascii.eqb_neq in Hdiff. now rewrite Hdiff.
Qed.

Lemma cmp_string_loop_end (byte_cmp : ascii -> ascii -> bool) (len_cmp : bool)
    (alen blen i : nat) (sa sb : string) :
  (0 < alen)%nat -> (0 < blen)%nat -> sa = "" \/ sb = "" ->
  cmp_string_loop byte_cmp len_cmp alen blen i sa sb = None.
Proof.
  intros Ha Hb Hend.
  destruct sa as [|ca ra]; cbn [cmp_string_loop];
    rewrite string_loop_cond_lengths;
    destruct alen; try lia; destruct blen; try lia; cbn [Nat.eqb negb andb].
  - reflexivity.
  - destruct Hend as [H|H]; [discriminate H|]. now rewrite H.
Qed.

Lemma length_app_pos (p s : string) (c : ascii) :
  (0 < String.length (p ++ String c s))%nat.
Proof.
  rewrite length_app. cbn [String.length]. lia.
Qed.

(** Two Strings that differ are ordered by their first differing byte: when
    they agree on a prefix [p] and continue with different bytes [ca] and
    [cb], [lt] returns whether [ca < cb] and [gt] whether [ca > cb], as
    unsigned bytes, whatever follows. *)
Theorem string_order_first_difference :
  forall (p ra rb : string) (ca cb : ascii) (w : World),
    ca <> cb ->
    noot_lt (VString (p ++ String ca ra)) (VString (p ++ String cb rb)) w
    = Ret (VBool (N_of_ascii ca <? N_of_ascii cb)%N) w
    /\ noot_gt (VString (p ++ String ca ra)) (VString (p ++ String cb rb)) w
       = Ret (VBool (N_of_ascii cb <? N_of_ascii ca)%N) w.
Proof.
  intros p ra rb ca cb w Hdiff.
  pose proof (length_app_pos p ra ca) as Ha.
  pose proof (length_app_pos p rb cb) as Hb.
  unfold noot_lt, noot_gt, noot_lt_impl, noot_gt_impl. cbv zeta.
  rewrite !(cmp_string_loop_prefix _ _ _ _ p Ha Hb).
  rewrite !(cmp_string_loop_differ _ _ _ _ _ ca cb ra rb Ha Hb Hdiff).
  split; reflexivity.
Qed.

Lemma string_order_first_difference_witness :
  noot_lt (VString "abc") (VString "abd!") w0 = Ret (VBool true) w0
  /\ noot_gt (VString "abc") (VString "abd!") w0 = Ret (VBool false) w0.
Proof.
  apply (string_order_first_difference "ab" "" "!" "c" "d" w0). discriminate.
Defined.

(** When one String is a prefix of the other, the order is defined only for
    the empty prefix.  With an empty String on one side the loop is not
    entered and the lengths decide: the empty String is less than every
    non-empty one.  With a non-empty prefix [p] (equal Strings included) the
    loop never ends by its condition and reads the byte after the end of the
    shorter String: [lt] and [gt] have no result in either order, and so have
    [le] and [ge], although [eq] of [p] with itself returns true. *)
Theorem string_order_prefix :
  forall (p r : string) (w : World),
    (p = "" ->
     noot_lt (VString p) (VString (p ++ r)) w = Ret (VBool (0 <? String.length r)%nat) w
     /\ noot_gt (VString (p ++ r)) (VString p) w
        = Ret (VBool (0 <? String.length r)%nat) w
     /\ noot_lt (VString (p ++ r)) (VString p) w = Ret (VBool false) w
     /\ noot_gt (VString p) (VString (p ++ r)) w = Ret (VBool false) w)
    /\ (p <> "" ->
        noot_lt (VString p) (VString (p ++ r)) w = Undef
        /\ noot_gt (VString p) (VString (p ++ r)) w = Undef
        /\ noot_lt (VString (p ++ r)) (VString p) w = Undef
        /\ noot_gt (VString (p ++ r)) (VString p) w = Undef
        /\ noot_le (VString p) (VString p) w = Undef
        /\ noot_ge (VString p) (VString p) w = Undef
        /\ noot_eq (VString p) (VString p) w = Ret (VBool true) w).
Proof.
  intros p r w. split.
  - intros ->. cbn [append]. destruct r; repeat split.
  - intros Hne.
    assert (Hp : (0 < String.length p)%nat)
      by (destruct p; [now elim Hne | cbn; lia]).
    assert (Hpr : (0 < String.length (p ++ r))%nat)
      by (rewrite length_app; lia).
    assert (Hleft : forall cmp lc,
               cmp_string_loop cmp lc (String.length p) (String.length (p ++ r))
                 0 p (p ++ r) = None).
    { intros cmp lc.
      pose proof (cmp_string_loop_prefix cmp lc _ _ p Hp Hpr 0 "" r) as H.
      rewrite string_app_nil_r in H. rewrite H.
      apply cmp_string_loop_end; auto. }
    assert (Hright : forall cmp lc,
               cmp_string_loop cmp lc (String.length (p ++ r)) (String.length p)
                 0 (p ++ r) p = None).
    { intros cmp lc.
      pose proof (cmp_string_loop_prefix cmp lc _ _ p Hpr Hp 0 r "") as H.
      rewrite string_app_nil_r in H. rewrite H.
      apply cmp_string_loop_end; auto. }
    assert (Hself : forall cmp lc,
               cmp_string_loop cmp lc (String.length p) (String.length p) 0 p p = None).
    { intros cmp lc.
      pose proof (cmp_string_loop_prefix cmp lc _ _ p Hp Hp 0 "" "") as H.
      rewrite !string_app_nil_r in H. rewrite H.
      apply cmp_string_loop_end; auto. }
    unfold noot_lt, noot_gt, noot_le, noot_ge, noot_eq, noot_lt_impl, noot_gt_impl, bind.
    cbv zeta. rewrite !Hleft, !Hright, !Hself.
    cbn [noot_eq_impl]. rewrite Nat.eqb_refl, eq_string_loop_refl.
    repeat split.
Qed.

Lemma string_order_prefix_witness :
  noot_lt (VString "") (VString "a") w0 = Ret (VBool true) w0
  /\ noot_le (VString "ab") (VString "ab") w0 = Undef.
Proof.
  split.
  - apply (proj1 (string_order_prefix "" "a" w0) eq_refl).
  - apply (proj2 (string_order_prefix "ab" "" w0)). discriminate.
Defined.

(** ** The call stack *)

Lemma removelast_snoc {A : Type} (l : list A) (x : A) :
  removelast (l ++ [x])%list = l.
Proof.
  apply removelast_last.
Qed.

(** A push keeps the stack inside its array.  When the length is at most the
    capacity before the push, the entry is written at an index below the new
    capacity, the length is at most the capacity afterwards, and the capacity
    is unchanged, doubled, or 1 when it was 0; the entry is appended after
    the older ones and nothing is printed. *)
Theorem push_keeps_capacity :
  forall (call_string : string) (w : World),
    0 <= noot_call_stack_capacity w ->
    Z.of_nat (List.length (noot_call_stack w)) <= noot_call_stack_capacity w ->
    exists w' : World,
      noot_push_call_stack call_string w = Ret tt w'
      /\ noot_call_stack w' = (noot_call_stack w ++ [call_string])%list
      /\ stdout w' = stdout w
      /\ Z.of_nat (List.length (noot_call_stack w)) < noot_call_stack_capacity w'
      /\ Z.of_nat (List.length (noot_call_stack w')) <= noot_call_stack_capacity w'
      /\ (noot_call_stack_capacity w' = noot_call_stack_capacity w
          \/ noot_call_stack_capacity w' = 2 * noot_call_stack_capacity w
          \/ (noot_call_stack_capacity w = 0 /\ noot_call_stack_capacity w' = 1)).
Proof.
  intros call_string w Hcap Hlen.
  unfold noot_push_call_stack. eexists. split; [reflexivity|].
  cbn [noot_call_stack stdout noot_call_stack_capacity].
  rewrite List.length_app, Nat2Z.inj_add. cbn [List.length Z.of_nat Pos.of_succ_nat].
  destruct (Z.leb_spec (noot_call_stack_capacity w)
              (Z.of_nat (List.length (noot_call_stack w)) + 1));
    [destruct (Z.eqb_spec (noot_call_stack_capacity w) 0)|];
    repeat split; lia.
Qed.

Lemma push_keeps_capacity_witness :
  exists w' : World,
    noot_push_call_stack "f" (mkWorld "" ["main"] 1) = Ret tt w'
    /\ noot_call_stack w' = ["main"; "f"]
    /\ stdout w' = ""
    /\ 1 < noot_call_stack_capacity w'
    /\ Z.of_nat (List.length (noot_call_stack w')) <= noot_call_stack_capacity w'
    /\ (noot_call_stack_capacity w' = 1
        \/ noot_call_stack_capacity w' = 2 * 1
        \/ (1 = 0 /\ noot_call_stack_capacity w' = 1)).
Proof.
  apply (push_keeps_capacity "f" (mkWorld "" ["main"] 1)); simpl; lia.
Defined.

Lemma push_enters (call_site : string) (w : World) :
  exists cap : Z,
    noot_push_call_stack call_site w
    = Ret tt (mkWorld (stdout w) (entered w call_site) cap).
Proof.
  unfold noot_push_call_stack, entered. eexists. reflexivity.
Qed.

Lemma pop_leaves (out : string) (stack : list string) (call_site : string) (cap : Z) :
  noot_pop_call_stack (mkWorld out (stack ++ [call_site])%list cap)
  = Ret tt (mkWorld out stack cap).
Proof.
  unfold noot_pop_call_stack. cbn [noot_call_stack stdout noot_call_stack_capacity].
  rewrite removelast_snoc. destruct stack; reflexivity.
Qed.

(** The trace printed from inside a call starts with the call site. *)
Lemma panic_text_entered (text : string) (out : string) (w : World)
    (call_site : string) (cap : Z) :
  panic_text text (mkWorld out (entered w call_site) cap)
  = text ++ nl ++ ("at " ++ call_site ++ nl) ++ trace_text (rev (noot_call_stack w)).
Proof.
  unfold panic_text, entered. cbn [noot_call_stack].
  now rewrite rev_unit.
Qed.

(** Running an operator through [noot_call_bin_op] changes nothing the
    caller can see: when the operator returns [v] and leaves the world as it
    is, the call returns [v] with the same output and the same call stack as
    before; only the capacity of the stack array may differ. *)
Theorem call_bin_op_transparent :
  forall (f : NootValue -> NootValue -> M NootValue) (a b v : NootValue)
         (call_site : string) (w : World),
    (forall w1 : World, f a b w1 = Ret v w1) ->
    exists cap : Z,
      noot_call_bin_op f a b call_site w
      = Ret v (mkWorld (stdout w) (noot_call_stack w) cap).
Proof.
  intros f a b v call_site w Hf.
  destruct (push_enters call_site w) as [cap Hpush].
  exists cap. unfold noot_call_bin_op.
  rewrite (bind_of_ret _ _ _ _ _ Hpush).
  rewrite (bind_of_ret _ _ _ _ _ (Hf _)).
  unfold entered. rewrite (bind_of_ret _ _ _ _ _ (pop_leaves _ _ _ _)).
  reflexivity.
Qed.

Lemma call_bin_op_transparent_witness :
  exists cap : Z,
    noot_call_bin_op noot_add (VInt 1) (VInt 2) "1 + 2" (mkWorld "" ["main"] 1)
    = Ret (VInt 3) (mkWorld "" ["main"] cap).
Proof.
  apply (call_bin_op_transparent noot_add (VInt 1) (VInt 2) (VInt 3) "1 + 2"
           (mkWorld "" ["main"] 1)).
  intros w1. reflexivity.
Defined.

(** A type error inside [noot_call_bin_op] is reported at its call site: for
    [noot_add] on operands that are not both numbers, the process ends with
    status 1 and the output is the message, then the line "at" with the call
    site, then the older entries of the call stack, the most recent first.
    The entry of the call site is still on the stack. *)
Theorem call_bin_op_panic_trace :
  forall (a b : NootValue) (call_site : string) (w : World),
    numeric (type_of a) && numeric (type_of b) = false ->
    exists w' : World,
      noot_call_bin_op noot_add a b call_site w = Exit 1 w'
      /\ stdout w'
         = stdout w
             ++ ("Attempted to add incompatible types "
                   ++ noot_type_names (type_of a) ++ " and "
                   ++ noot_type_names (type_of b))
             ++ nl ++ ("at " ++ call_site ++ nl)
             ++ trace_text (rev (noot_call_stack w))
      /\ noot_call_stack w' = (noot_call_stack w ++ [call_site])%list.
Proof.
  intros a b call_site w Hnum.
  destruct (push_enters call_site w) as [cap Hpush].
  eexists. unfold noot_call_bin_op.
  rewrite (bind_of_ret _ _ _ _ _ Hpush).
  assert (Hadd : noot_add a b (mkWorld (stdout w) (entered w call_site) cap)
                 = Exit 1 (append_out (mkWorld (stdout w) (entered w call_site) cap)
                     (panic_text ("Attempted to add incompatible types "
                                    ++ noot_type_names (type_of a) ++ " and "
                                    ++ noot_type_names (type_of b))
                        (mkWorld (stdout w) (entered w call_site) cap)))).
  { destruct a, b; try discriminate Hnum;
      cbv beta iota delta [noot_add];
      (apply operator_type_panic; [reflexivity | vm_compute; lia]). }
  unfold bind at 1. rewrite Hadd.
  split; [reflexivity|]. split; [|reflexivity].
  cbn [stdout append_out]. now rewrite panic_text_entered.
Qed.

Lemma call_bin_op_panic_trace_witness :
  exists w' : World,
    noot_call_bin_op noot_add (VString "a") (VInt 1) "g" (mkWorld "" ["f"] 1)
    = Exit 1 w'
    /\ stdout w'
       = "" ++ ("Attempted to add incompatible types " ++ "string" ++ " and " ++ "int")
            ++ nl ++ ("at " ++ "g" ++ nl) ++ trace_text (rev ["f"])
    /\ noot_call_stack w' = ["f"; "g"].
Proof.
  apply (call_bin_op_panic_trace (VString "a") (VInt 1) "g" (mkWorld "" ["f"] 1)).
  reflexivity.
Defined.

(** ** Invocation *)

Lemma call_type_panic (ty : NootType) (w : World) :
  noot_unary_type_panic "Attempted to call %s value" ty w
  = Exit 1 (append_out w
      (panic_text ("Attempted to call " ++ noot_type_names ty ++ " value") w)).
Proof.
  unfold noot_unary_type_panic, sprintf_into.
  replace (String.length
             (Libc.sprintf_s "Attempted to call %s value" [noot_type_names ty]) <? 256)%nat
    with true by (destruct ty; vm_compute; reflexivity).
  rewrite bind_ret_l, noot_panic_impl_exits.
  destruct ty; reflexivity.
Qed.

(** Calling a value that is neither a Function nor a Closure ends the process
    with status 1: the output is "Attempted to call", the name of the
    discriminant and "value", then the line of the call site, then the older
    entries of the call stack, the most recent first.  No native code runs. *)
Theorem noot_call_not_callable :
  forall (native : NootFn -> Z -> list NootValue -> M NootValue)
         (native_closure : NootClosureFn -> Z -> list NootValue -> list NootValue
                           -> M NootValue)
         (val : NootValue) (count : Z) (args : list NootValue)
         (call_site : string) (w : World),
    type_of val <> NootType.Function -> type_of val <> NootType.Closure ->
    exists w' : World,
      noot_call native native_closure val count args call_site w = Exit 1 w'
      /\ stdout w'
         = stdout w
             ++ ("Attempted to call " ++ noot_type_names (type_of val) ++ " value")
             ++ nl ++ ("at " ++ call_site ++ nl)
             ++ trace_text (rev (noot_call_stack w)).
Proof.
  intros native native_closure val count args call_site w Hf Hc.
  destruct (push_enters call_site w) as [cap Hpush].
  eexists. unfold noot_call.
  rewrite (bind_of_ret _ _ _ _ _ Hpush).
  assert (Hpanic :
            bind (noot_unary_type_panic "Attempted to call %s value" (type_of val))
                 (fun _ => @fall_off_end NootValue)
                 (mkWorld (stdout w) (entered w call_site) cap)
            = Exit 1 (append_out (mkWorld (stdout w) (entered w call_site) cap)
                (panic_text
                   ("Attempted to call " ++ noot_type_names (type_of val) ++ " value")
                   (mkWorld (stdout w) (entered w call_site) cap)))).
  { unfold bind. now rewrite call_type_panic. }
  destruct val; cbn [type_of] in Hf, Hc;
    try (now elim Hf); try (now elim Hc);
    (rewrite Hpanic; split; [reflexivity|];
     cbn [stdout append_out]; now rewrite panic_text_entered).
Qed.

Lemma noot_call_not_callable_witness :
  exists w' : World,
    noot_call (fun _ _ _ => ret VNil) (fun _ _ _ _ => ret VNil)
      (VInt 3) 0 [] "3()" (mkWorld "" ["main"] 1)
    = Exit 1 w'
    /\ stdout w'
       = "" ++ ("Attempted to call " ++ "int" ++ " value")
            ++ nl ++ ("at " ++ "3()" ++ nl) ++ trace_text (rev ["main"]).
Proof.
  apply (noot_call_not_callable (fun _ _ _ => ret VNil) (fun _ _ _ _ => ret VNil)
           (VInt 3) 0 [] "3()" (mkWorld "" ["main"] 1)); discriminate.
Defined.

(** The callable behind a value, as [noot_call] invokes it: a Function gets
    the count and the arguments, a Closure gets its captures as well. *)
Lemma noot_call_callee
    (native : NootFn -> Z -> list NootValue -> M NootValue)
    (native_closure : NootClosureFn -> Z -> list NootValue -> list NootValue
                      -> M NootValue)
    (callee : M NootValue) (val : NootValue) (count : Z) (args : list NootValue)
    (call_site : string) (w : World) :
  match val with
  | VFunction f => callee = native f (count mod 256) args
  | VClosure captures f => callee = native_closure f (count mod 256) args captures
  | _ => False
  end ->
  noot_call native native_closure val count args call_site w
  = bind (noot_push_call_stack call_site)
         (fun _ => res <- callee ;; noot_pop_call_stack ;; ret res) w.
Proof.
  intros Hval. destruct val; try contradiction; subst callee; reflexivity.
Qed.

(** A call that returns is balanced.  When the native code of a Function
    (given the count modulo 256 and the arguments) or of a Closure (given its
    captures too) returns [v] after printing [text], with the call stack as
    it found it, [noot_call] returns [v]: the caller sees [text] appended to
    the output and its own call stack again; only the capacity of the stack
    array may differ. *)
Theorem noot_call_returns :
  forall (native : NootFn -> Z -> list NootValue -> M NootValue)
         (native_closure : NootClosureFn -> Z -> list NootValue -> list NootValue
                           -> M NootValue)
         (callee : M NootValue) (val v : NootValue) (count : Z)
         (args : list NootValue) (call_site text : string) (w : World),
    match val with
    | VFunction f => callee = native f (count mod 256) args
    | VClosure captures f => callee = native_closure f (count mod 256) args captures
    | _ => False
    end ->
    (forall w1 : World, callee w1 = Ret v (append_out w1 text)) ->
    exists cap : Z,
      noot_call native native_closure val count args call_site w
      = Ret v (mkWorld (stdout w ++ text) (noot_call_stack w) cap).
Proof.
  intros native native_closure callee val v count args call_site text w Hval Hret.
  rewrite (noot_call_callee native native_closure callee val count args call_site w Hval).
  destruct (push_enters call_site w) as [cap Hpush].
  exists cap.
  rewrite (bind_of_ret _ _ _ _ _ Hpush).
  rewrite (bind_of_ret _ _ _ _ _ (Hret _)).
  unfold append_out, entered. cbn [stdout noot_call_stack noot_call_stack_capacity].
  rewrite (bind_of_ret _ _ _ _ _ (pop_leaves _ _ _ _)).
  reflexivity.
Qed.

Lemma noot_call_returns_witness :
  exists cap : Z,
    noot_call (fun _ count args => noot_print 1 count args) (fun _ _ _ _ => ret VNil)
      (VFunction 7%N) 257 [VInt 42] "show(42)" (mkWorld "" ["main"] 1)
    = Ret (VBool true) (mkWorld ("" ++ "42") ["main"] cap).
Proof.
  apply (noot_call_returns (fun _ count args => noot_print 1 count args)
           (fun _ _ _ _ => ret VNil) (noot_print 1 1 [VInt 42])
           (VFunction 7%N) (VBool true) 257 [VInt 42] "show(42)" "42"
           (mkWorld "" ["main"] 1)).
  - reflexivity.
  - intros w1. reflexivity.
Defined.

(** A panic below two nested calls is traced innermost first.  When the code
    of the Function [f] calls the Function [g] at the call site [site_g], and
    the code of [g] adds two values that are not both numbers, calling [f] at
    [site_f] ends the process with the message of [add], then the line of
    [site_g], then the line of [site_f], then the older entries. *)
Theorem nested_call_panic_trace :
  forall (native inner : NootFn -> Z -> list NootValue -> M NootValue)
         (native_closure : NootClosureFn -> Z -> list NootValue -> list NootValue
                           -> M NootValue)
         (f g : NootFn) (a b : NootValue) (site_f site_g : string) (w : World),
    (forall count args,
        native f count args = noot_call inner native_closure (VFunction g) 0 [] site_g) ->
    (forall count args, inner g count args = noot_add a b) ->
    numeric (type_of a) && numeric (type_of b) = false ->
    exists w' : World,
      noot_call native native_closure (VFunction f) 0 [] site_f w = Exit 1 w'
      /\ stdout w'
         = stdout w
             ++ ("Attempted to add incompatible types "
                   ++ noot_type_names (type_of a) ++ " and "
                   ++ noot_type_names (type_of b))
             ++ nl ++ ("at " ++ site_g ++ nl) ++ ("at " ++ site_f ++ nl)
             ++ trace_text (rev (noot_call_stack w)).
Proof.
  intros native inner native_closure f g a b site_f site_g w Hf Hg Hnum.
  destruct (push_enters site_f w) as [cap Hpush].
  set (wf := mkWorld (stdout w) (entered w site_f) cap) in *.
  destruct (push_enters site_g wf) as [cap' Hpush'].
  set (wg := mkWorld (stdout wf) (entered wf site_g) cap') in *.
  assert (Hadd : noot_add a b wg
                 = Exit 1 (append_out wg
                     (panic_text ("Attempted to add incompatible types "
                                    ++ noot_type_names (type_of a) ++ " and "
                                    ++ noot_type_names (type_of b)) wg))).
  { destruct a, b; try discriminate Hnum;
      cbv beta iota delta [noot_add];
      (apply operator_type_panic; [reflexivity | vm_compute; lia]). }
  eexists. split.
  - unfold noot_call at 1. rewrite (bind_of_ret _ _ _ _ _ Hpush).
    unfold bind at 1. rewrite Hf.
    unfold noot_call. rewrite (bind_of_ret _ _ _ _ _ Hpush').
    unfold bind at 1. rewrite Hg, Hadd. reflexivity.
  - unfold wg. cbn [stdout append_out].
    rewrite panic_text_entered. unfold wf at 2. cbn [noot_call_stack].
    unfold entered at 1. rewrite rev_unit. cbn [trace_text stdout].
    unfold wf. cbn [stdout].
    now rewrite ?string_app_assoc.
Qed.

Lemma nested_call_panic_trace_witness :
  exists w' : World,
    noot_call
      (fun _ _ _ =>
         noot_call (fun _ _ _ => noot_add (VString "a") (VInt 1))
           (fun _ _ _ _ => ret VNil) (VFunction 2%N) 0 [] "g()")
      (fun _ _ _ _ => ret VNil) (VFunction 1%N) 0 [] "f()" w0
    = Exit 1 w'
    /\ stdout w'
       = "" ++ ("Attempted to add incompatible types " ++ "string" ++ " and " ++ "int")
            ++ nl ++ ("at " ++ "g()" ++ nl) ++ ("at " ++ "f()" ++ nl)
            ++ trace_text (rev []).
Proof.
  apply (nested_call_panic_trace
           (fun _ _ _ =>
              noot_call (fun _ _ _ => noot_add (VString "a") (VInt 1))
                (fun _ _ _ _ => ret VNil) (VFunction 2%N) 0 [] "g()")
           (fun _ _ _ => noot_add (VString "a") (VInt 1))
           (fun _ _ _ _ => ret VNil) 1%N 2%N (VString "a") (VInt 1) "f()" "g()" w0);
    reflexivity.
Defined.

(** ** What the printer does to the world *)

Lemma only_prints_refl (w : World) : only_prints w w.
Proof.
  exists "". now rewrite append_out_nil.
Qed.

Lemma only_prints_trans (w1 w2 w3 : World) :
  only_prints w1 w2 -> only_prints w2 w3 -> only_prints w1 w3.
Proof.
  intros [a ->] [b ->]. exists (a ++ b). apply append_out_app.
Qed.

Lemma frame_bind {A B : Type} (m : M A) (k : A -> M B) (w : World) :
  frame w (m w) ->
  (forall (a : A) (w' : World), only_prints w w' -> frame w' (k a w')) ->
  frame w (bind m k w).
Proof.
  intros Hm Hk. unfold bind. destruct (m w) as [a w'| | |]; cbn in *; try easy.
  specialize (Hk a w' Hm). destruct (k a w') as [b w''| | |]; cbn in *; try easy.
  now apply (only_prints_trans w w' w'').
Qed.

Lemma frame_printf (text : string) (w : World) : frame w (printf text w).
Proof.
  cbn. now exists text.
Qed.

Lemma frame_ret {A : Type} (a : A) (w : World) : frame w (ret a w).
Proof.
  cbn. apply only_prints_refl.
Qed.

Lemma frame_lift {A : Type} (o : option A) (w : World) : frame w (lift o w).
Proof.
  destruct o; cbn; [apply only_prints_refl | exact I].
Qed.

Lemma frame_print_real (r : float) (w : World) : frame w (print_real r w).
Proof.
  unfold print_real. apply frame_bind.
  - unfold sprintf_into. destruct (_ <? _)%nat; [apply frame_ret | exact I].
  - intros str w' _. destruct (_ =? _)%nat; [apply frame_ret|].
    apply frame_bind; [apply frame_lift|].
    intros i w'' _. apply frame_printf.
Qed.

Lemma frame_print_list_loop (pr : NootValue -> M unit) :
  (forall (v : NootValue) (w : World), frame w (pr v w)) ->
  forall (n : nat) (curr : NootValue) (printed : bool) (w : World),
    chain_length curr = n ->
    frame w (print_list_loop pr printed curr w).
Proof.
  intros Hpr. induction n as [|n IH]; intros curr printed w Hn.
  - destruct curr as [| | | | |h t| | | |]; try apply frame_ret.
    destruct h as [h|]; [|apply frame_ret].
    destruct t as [next|]; [discriminate Hn|].
    cbn [print_list_loop]. apply frame_bind.
    + destruct printed; [apply frame_printf | apply frame_ret].
    + intros _ w' _. apply frame_bind; [apply Hpr|]. intros; exact I.
  - destruct curr as [| | | | |h t| | | |]; try discriminate Hn.
    destruct t as [next|]; [|discriminate Hn].
    destruct h as [h|]; [|apply frame_ret].
    cbn [print_list_loop]. apply frame_bind.
    + destruct printed; [apply frame_printf | apply frame_ret].
    + intros _ w' _. apply frame_bind; [apply Hpr|].
      intros _ w'' _. apply IH. now injection Hn.
Qed.

Lemma frame_noot_print (fuel : nat) :
  forall (count : Z) (args : list NootValue) (w : World),
    frame w (noot_print fuel count args w).
Proof.
  induction fuel as [|fuel IH]; intros count args w; [exact I|].
  assert (Hrec : forall (v : NootValue) (w1 : World), frame w1 (print_elem fuel v w1)).
  { intros v w1. unfold print_elem. apply frame_bind; [apply IH|].
    intros; apply frame_ret. }
  cbn [noot_print]. apply frame_bind.
  - destruct (1 <=? count); [apply frame_lift | apply frame_ret].
  - intros val w1 _. apply frame_bind; [|intros; apply frame_ret].
    destruct val as [|b| | | |h t|d l r| | |x].
    + apply frame_printf.
    + destruct b; apply frame_printf.
    + apply frame_printf.
    + apply frame_print_real.
    + apply frame_printf.
    + apply frame_bind; [apply frame_printf|]. intros _ w2 _.
      apply frame_bind.
      * apply (frame_print_list_loop (print_elem fuel) Hrec _ _ _ _ eq_refl).
      * intros [printed curr] w3 _. apply frame_bind; [|intros; apply frame_printf].
        destruct (negb _); [|apply frame_ret].
        apply frame_bind; [destruct printed; [apply frame_printf | apply frame_ret]|].
        intros _ w4 _. apply Hrec.
    + apply frame_bind; [apply frame_printf|]. intros _ w2 _.
      apply frame_bind; [destruct l; [apply Hrec | apply frame_printf]|].
      intros _ w3 _. apply frame_bind; [apply frame_printf|]. intros _ w4 _.
      apply frame_bind; [apply Hrec|]. intros _ w5 _.
      apply frame_bind; [apply frame_printf|]. intros _ w6 _.
      apply frame_bind; [destruct r; [apply Hrec | apply frame_printf]|].
      intros _ w7 _. apply frame_printf.
    + apply frame_printf.
    + apply frame_printf.
    + apply frame_bind; [apply frame_printf|]. intros _ w2 _. apply Hrec.
Qed.

Lemma noot_print_returns_true (fuel : nat) (count : Z) (args : list NootValue)
    (w w' : World) (v : NootValue) :
  noot_print fuel count args w = Ret v w' -> v = VBool true.
Proof.
  destruct fuel as [|fuel]; [discriminate|].
  cbn [noot_print]. unfold bind at 1.
  destruct ((if 1 <=? count then arg 0 args else ret NOOT_NIL) w) as [val w1| | |];
    try discriminate.
  unfold bind at 1.
  match goal with |- context [match ?m w1 with _ => _ end] => destruct (m w1) end;
    try discriminate.
  unfold ret, new_bool. intros H. now injection H.
Qed.

(** Printing only prints.  For every value, count and fuel, [noot_print] and
    [noot_println] never end the process, on any run; and when one of them
    returns, the result is the Bool true, text has been appended to the
    standard output, and the call stack and what was printed before are as
    they were. *)
Theorem print_only_prints :
  forall (fuel : nat) (count : Z) (args : list NootValue) (w : World),
    (forall (st : Z) (w1 : World),
        noot_print fuel count args w <> Exit st w1
        /\ noot_println fuel count args w <> Exit st w1)
    /\ (forall (v : NootValue) (w' : World),
           noot_print fuel count args w = Ret v w'
           \/ noot_println fuel count args w = Ret v w' ->
           v = VBool true
           /\ (exists text : string, stdout w' = stdout w ++ text)
           /\ noot_call_stack w' = noot_call_stack w).
Proof.
  intros fuel count args w.
  pose proof (frame_noot_print fuel count args w) as Hframe.
  assert (Hln : frame w (noot_println fuel count args w)).
  { unfold noot_println. apply frame_bind; [exact Hframe|].
    intros res w1 _. apply frame_bind; [apply frame_printf|].
    intros; apply frame_ret. }
  split.
  - intros st w1. split; intros H.
    + rewrite H in Hframe. exact Hframe.
    + rewrite H in Hln. exact Hln.
  - intros v w' Hret.
    assert (Hv : v = VBool true).
    { destruct Hret as [H|H].
      - exact (noot_print_returns_true _ _ _ _ _ _ H).
      - unfold noot_println, bind in H.
        destruct (noot_print fuel count args w) as [res w1| | |] eqn:E;
          try discriminate.
        cbn in H. injection H as <- _.
        exact (noot_print_returns_true _ _ _ _ _ _ E). }
    assert (Honly : only_prints w w').
    { destruct Hret as [H|H]; [rewrite H in Hframe | rewrite H in Hln]; assumption. }
    destruct Honly as [text ->].
    split; [exact Hv|]. split; [now exists text | reflexivity].
Qed.

Lemma print_only_prints_witness :
  (forall (st : Z) (w1 : World),
      noot_print 1 1 [VInt 5] (mkWorld "x = " ["main"] 1) <> Exit st w1
      /\ noot_println 1 1 [VInt 5] (mkWorld "x = " ["main"] 1) <> Exit st w1)
  /\ (VBool true = VBool true
      /\ (exists text : string,
             stdout (mkWorld "x = 5" ["main"] 1)
             = stdout (mkWorld "x = " ["main"] 1) ++ text)
      /\ noot_call_stack (mkWorld "x = 5" ["main"] 1)
         = noot_call_stack (mkWorld "x = " ["main"] 1)).
Proof.
  pose proof (print_only_prints 1 1 [VInt 5] (mkWorld "x = " ["main"] 1)) as [Hexit Hret].
  split; [exact Hexit|].
  apply (Hret (VBool true) (mkWorld "x = 5" ["main"] 1)).
  left. reflexivity.
Defined.

(** ** Printing trees, errors and strings *)

Lemma print_opt_out (fuel : nat) (o : option NootValue) (text : string) (w : World) :
  prints_opt fuel o text ->
  match o with
  | Some v => print_elem fuel v
  | None => printf "_"
  end w = Ret tt (append_out w text).
Proof.
  destruct o as [v|]; cbn [prints_opt].
  - apply print_elem_out.
  - intros ->. reflexivity.
Qed.

Lemma noot_print_tree_unfold (fuel : nat) (d : NootValue) (l r : option NootValue)
    (w : World) :
  noot_print (S fuel) 1 [VTree d l r] w
  = bind
      (printf "{" ;;
       match l with Some v => print_elem fuel v | None => printf "_" end ;;
       printf " " ;;
       print_elem fuel d ;;
       printf " " ;;
       match r with Some v => print_elem fuel v | None => printf "_" end ;;
       printf "}")
      (fun _ => ret (new_bool true)) w.
Proof. reflexivity. Qed.

(** A Tree prints as an opening brace, its left subtree, a space, its data, a
    space, its right subtree and a closing brace, where an absent subtree
    prints as an underscore and the parts are printed by the printer
    itself. *)
Theorem print_tree_shape :
  forall (fuel : nat) (data : NootValue) (tleft tright : option NootValue)
         (text_left text_data text_right : string),
    prints_opt fuel tleft text_left ->
    prints_as fuel data text_data ->
    prints_opt fuel tright text_right ->
    prints_as (S fuel) (VTree data tleft tright)
      ("{" ++ text_left ++ " " ++ text_data ++ " " ++ text_right ++ "}").
Proof.
  intros fuel data tleft tright tl td tr Hl Hd Hr w.
  rewrite noot_print_tree_unfold.
  rewrite bind_assoc, bind_printf, bind_assoc.
  rewrite (bind_of_ret _ _ _ _ _ (print_opt_out fuel tleft tl _ Hl)).
  rewrite bind_assoc, bind_printf, bind_assoc.
  rewrite (bind_of_ret _ _ _ _ _ (print_elem_out fuel data td _ Hd)).
  rewrite bind_assoc, bind_printf, bind_assoc.
  rewrite (bind_of_ret _ _ _ _ _ (print_opt_out fuel tright tr _ Hr)).
  rewrite bind_printf. unfold ret, new_bool.
  rewrite !append_out_app. now rewrite ?string_app_assoc.
Qed.

Lemma print_tree_shape_witness :
  prints_as 2 (VTree (VInt 5) None None) "{_ 5 _}"
  /\ prints_as 3 (VTree (VInt 2) (Some (VTree (VInt 1) None None)) None) "{{_ 1 _} 2 _}".
Proof.
  assert (H5 : prints_as 1 (VInt 5) "5") by (intros w; reflexivity).
  assert (H1 : prints_as 1 (VInt 1) "1") by (intros w; reflexivity).
  assert (H2 : prints_as 2 (VInt 2) "2") by (intros w; reflexivity).
  split.
  - apply (print_tree_shape 1 (VInt 5) None None "_" "5" "_");
      [reflexivity | exact H5 | reflexivity].
  - apply (print_tree_shape 2 (VInt 2) (Some (VTree (VInt 1) None None)) None
             "{_ 1 _}" "2" "_"); [|exact H2|reflexivity].
    apply (print_tree_shape 1 (VInt 1) None None "_" "1" "_");
      [reflexivity | exact H1 | reflexivity].
Defined.

(** An Error prints as "Error: " followed by the printed form of the value
    it wraps, whatever that value is. *)
Theorem print_error_shape :
  forall (fuel : nat) (inner : NootValue) (text : string),
    prints_as fuel inner text ->
    prints_as (S fuel) (VError inner) ("Error: " ++ text).
Proof.
  intros fuel inner text Hinner w.
  change (noot_print (S fuel) 1 [VError inner] w)
    with (bind (printf "Error: " ;; print_elem fuel inner)
               (fun _ => ret (new_bool true)) w).
  rewrite bind_assoc, bind_printf.
  rewrite (bind_of_ret _ _ _ _ _ (print_elem_out fuel inner text _ Hinner)).
  unfold ret, new_bool. now rewrite append_out_app.
Qed.

Lemma print_error_shape_witness :
  prints_as 2 (VError (VFunction 9%N)) "Error: function".
Proof.
  apply (print_error_shape 1 (VFunction 9%N) "function").
  intros w. reflexivity.
Defined.

Lemma substring_whole (s : string) : substring 0 (String.length s) s = s.
Proof.
  pose proof (substring_app_left s "") as H.
  now rewrite string_app_nil_r in H.
Qed.

Lemma until_nul_no_nul (s : string) : no_nul s = true -> Libc.until_nul s = s.
Proof.
  induction s as [|c s IH]; cbn [no_nul Libc.until_nul]; [reflexivity|].
  intros H. apply andb_true_iff in H. destruct H as [Hc Hs].
  apply negb_true_iff in Hc. rewrite Hc. now rewrite (IH Hs).
Qed.

Lemma until_nul_length (s : string) :
  (String.length (Libc.until_nul s) <= String.length s)%nat.
Proof.
  induction s as [|c s IH]; cbn [Libc.until_nul String.length]; [lia|].
  destruct (Ascii.eqb c Ascii.zero); cbn [String.length]; lia.
Qed.

Lemma spaces_length (n : nat) : String.length (Libc.spaces n) = n.
Proof.
  induction n as [|n IH]; cbn [Libc.spaces String.length]; [reflexivity | now rewrite IH].
Qed.

(** A String is printed in exactly as many characters as its length: its
    bytes up to the first NUL, preceded by as many spaces as there are bytes
    from that NUL on.  A String without NUL byte is printed as its bytes, as
    they are. *)
Theorem print_string_bytes :
  forall (fuel : nat) (s : string),
    prints_as (S fuel) (VString s)
      (Libc.spaces (String.length s - String.length (Libc.until_nul s))
         ++ Libc.until_nul s)
    /\ String.length
         (Libc.spaces (String.length s - String.length (Libc.until_nul s))
            ++ Libc.until_nul s) = String.length s
    /\ (no_nul s = true -> prints_as (S fuel) (VString s) s).
Proof.
  intros fuel s.
  assert (Hgen : prints_as (S fuel) (VString s)
                   (Libc.spaces (String.length s - String.length (Libc.until_nul s))
                      ++ Libc.until_nul s)).
  { intros w.
    change (noot_print (S fuel) 1 [VString s] w)
      with (Ret (VBool true)
              (append_out w (Libc.fmt_star_s (String.length s) (String.length s) s))).
    unfold Libc.fmt_star_s, Libc.prefix. now rewrite substring_whole. }
  split; [exact Hgen|]. split.
  - rewrite length_app, spaces_length.
    pose proof (until_nul_length s). lia.
  - intros Hnul. rewrite (until_nul_no_nul s Hnul) in Hgen.
    rewrite Nat.sub_diag in Hgen. exact Hgen.
Qed.

Lemma print_string_bytes_witness :
  prints_as 1 (VString "boom") "boom".
Proof.
  apply (print_string_bytes 0 "boom"). reflexivity.
Defined.

(** ** Lists the printer cannot finish *)

(** Two ways of ending a List stop the printer.  A node whose head is absent,
    the other representation of the empty list, is printed by a call of the
    printer on the same node, so the printer never returns, however deep the
    recursion may go.  A node whose head prints but whose tail is a null
    pointer is dereferenced by the loop condition: the printer has no
    defined result. *)
Theorem print_list_bad_ends :
  forall (fuel : nat) (head : NootValue) (text : string)
         (tail : option NootValue) (w : World),
    prints_as fuel head text ->
    noot_print (S fuel) 1 [VList (Some head) None] w = Undef
    /\ (forall n : nat, noot_print n 1 [VList None tail] w = Timeout).
Proof.
  intros fuel head text tail w Hhead. split.
  - rewrite noot_print_list_unfold.
    rewrite bind_assoc, bind_printf, bind_assoc.
    cbn [print_list_loop]. rewrite !bind_assoc, bind_ret_l, bind_assoc.
    now rewrite (bind_of_ret _ _ _ _ _ (print_elem_out fuel head text _ Hhead)).
  - intros n. apply print_headless_node_never_returns.
Qed.

Lemma print_list_bad_ends_witness :
  noot_print 2 1 [VList (Some (VInt 1)) None] w0 = Undef
  /\ (forall n : nat, noot_print n 1 [VList None None] w0 = Timeout).
Proof.
  apply (print_list_bad_ends 1 (VInt 1) "1" None w0).
  intros w. reflexivity.
Defined.

(** ** What an assertion can return *)

(** An assertion only ever returns a truthy first argument.  Whenever
    [noot_assert] returns, the count is at least 1, the value returned is the
    first argument, it is truthy, and the world is as before the call:
    nothing was printed.  With a count of zero, or a falsy first argument,
    it does not return. *)
Theorem assert_returns_only_truthy :
  forall (fuel : nat) (count : Z) (args : list NootValue) (w w' : World)
         (v : NootValue),
    noot_assert fuel count args w = Ret v w' ->
    1 <= count /\ nth_error args 0 = Some v /\ truthy v = true /\ w' = w.
Proof.
  intros fuel count args w w' v H. unfold noot_assert in H.
  destruct (1 <=? count) eqn:Hc.
  - unfold arg in H. destruct (nth_error args 0) as [val|] eqn:Hval;
      [|discriminate H].
    cbn [lift] in H. rewrite bind_ret_l, noot_is_true_truthy in H.
    destruct (truthy val) eqn:Ht; cbn [negb] in H.
    + rewrite bind_ret_l in H. unfold ret in H. injection H as <- <-.
      apply Z.leb_le in Hc. repeat split; assumption.
    + exfalso. destruct (2 <=? count);
        rewrite noot_panic_absorbs in H;
        exact (noot_panic_no_return _ _ _ _ _ _ H).
  - rewrite bind_ret_l in H. change (noot_is_true NOOT_NIL) with false in H.
    cbn [negb] in H. exfalso. destruct (2 <=? count);
      rewrite noot_panic_absorbs in H;
      exact (noot_panic_no_return _ _ _ _ _ _ H).
Qed.

Lemma assert_returns_only_truthy_witness :
  1 <= 2 /\ nth_error [VInt 0; VString "never printed"] 0 = Some (VInt 0)
  /\ truthy (VInt 0) = true /\ w0 = w0.
Proof.
  apply (assert_returns_only_truthy 3 2 [VInt 0; VString "never printed"] w0 w0 (VInt 0)).
  reflexivity.
Defined.

(** ** The panic primitive *)

Lemma noot_print_first_argument (fuel : nat) (count : Z) (v : NootValue)
    (rest : list NootValue) (w : World) :
  1 <= count -> noot_print fuel count (v :: rest) w = noot_print fuel 1 [v] w.
Proof.
  intros Hc. apply Z.leb_le in Hc.
  destruct fuel as [|fuel]; [reflexivity|].
  cbn [noot_print]. now rewrite Hc.
Qed.

(** The panic primitive prints its first argument and ignores the others:
    given at least one argument whose first prints as [text], it writes an
    empty line, "Noot panicked:", [text], an empty line and the trace of the
    call stack, most recent call first, and ends the process with status
    1. *)
Theorem panic_prints_payload_and_trace :
  forall (fuel : nat) (count : Z) (v : NootValue) (rest : list NootValue)
         (text : string) (w : World),
    1 <= count ->
    prints_as fuel v text ->
    noot_panic fuel count (v :: rest) w
    = Exit 1 (append_out w
        (nl ++ "Noot panicked:" ++ nl ++ text ++ nl ++ nl
            ++ trace_text (rev (noot_call_stack w)))).
Proof.
  intros fuel count v rest text w Hc Hv.
  rewrite (noot_panic_prints_payload fuel count (v :: rest) w
             (append_out (append_out w panic_banner) text) (VBool true)).
  - rewrite !append_out_app. unfold panic_text, panic_banner.
    cbn [noot_call_stack append_out]. now rewrite ?string_app_assoc.
  - rewrite (noot_print_first_argument fuel count v rest _ Hc). apply Hv.
Qed.

Lemma panic_prints_payload_and_trace_witness :
  noot_panic 1 2 [VString "boom"; VInt 7] (mkWorld "" ["main"; "f"] 2)
  = Exit 1 (mkWorld (nl ++ "Noot panicked:" ++ nl ++ "boom" ++ nl ++ nl
                       ++ "at f" ++ nl ++ "at main" ++ nl) ["main"; "f"] 2).
Proof.
  apply (panic_prints_payload_and_trace 1 2 (VString "boom") [VInt 7] "boom"
           (mkWorld "" ["main"; "f"] 2)).
  - lia.
  - intros w. reflexivity.
Defined.

(** ** The two strict orderings *)

Lemma string_loop_cond_sym (i alen blen : nat) :
  string_loop_cond i alen blen = string_loop_cond i blen alen.
Proof.
  rewrite !string_loop_cond_lengths. apply andb_comm.
Qed.

Lemma cmp_string_loop_flip (len_cmp : bool) (alen blen : nat) (sa : string) :
  forall (i : nat) (sb : string),
    cmp_string_loop (fun ac bc => byte_lt bc ac) len_cmp alen blen i sa sb
    = cmp_string_loop byte_lt len_cmp blen alen i sb sa.
Proof.
  induction sa as [|ac sa IH]; intros i sb.
  - destruct sb; cbn [cmp_string_loop];
      now rewrite (string_loop_cond_sym i alen blen).
  - destruct sb as [|bc sb]; cbn [cmp_string_loop];
      rewrite (string_loop_cond_sym i alen blen); [reflexivity|].
    rewrite (Ascii.eqb_sym ac bc), IH. reflexivity.
Qed.

(** The cases of an ordering that returned, in the world it started from. *)
Ltac returned_cases Hcmp :=
  match type of Hcmp with
  | bind (noot_binary_type_panic _ _ _) _ _ = Ret _ _ =>
      exfalso; exact (type_panic_then_no_return _ _ _ _ _ _ _ Hcmp)
  | ret _ _ = Ret _ _ => unfold ret in Hcmp; injection Hcmp as Hcmp; subst
  | lift _ _ = Ret _ _ => apply lift_ret_inv in Hcmp; destruct Hcmp as [Hcmp _]
  end.

(** [gt] is [lt] with the operands exchanged: when [gt(a,b)] returns a
    boolean, [lt(b,a)] returns the same boolean, or has no result at all
    (two Errors whose payloads reach a List or a Tree as left operand of the
    equality). *)
Theorem gt_is_lt_exchanged :
  forall (a b : NootValue) (w : World) (x : bool),
    noot_gt a b w = Ret (VBool x) w ->
    noot_lt b a w = Ret (VBool x) w \/ noot_lt b a w = Undef.
Proof.
  intros a b w x H. unfold noot_gt in H. unfold bind in H.
  destruct (noot_gt_impl a b w) as [g w1| | |] eqn:Hg; try discriminate H.
  cbn in H. injection H as -> ->.
  destruct a, b; cbn [noot_gt_impl type_of] in Hg; returned_cases Hg;
    try (left; reflexivity).
  - (* String *)
    left. unfold noot_lt, noot_lt_impl. cbv zeta.
    rewrite cmp_string_loop_flip in Hg. now rewrite Hg.
  - (* Error *)
    unfold noot_lt, noot_lt_impl.
    destruct (noot_eq_impl b a) as [y|] eqn:Hba; [left|right; reflexivity].
    cbn. now rewrite (noot_eq_impl_sym a b x y Hg Hba).
Qed.

Lemma gt_is_lt_exchanged_witness :
  noot_lt (VReal 2.5%float) (VInt 3) w0 = Ret (VBool true) w0
  \/ noot_lt (VReal 2.5%float) (VInt 3) w0 = Undef.
Proof.
  apply (gt_is_lt_exchanged (VInt 3) (VReal 2.5%float) w0 true).
  vm_compute. reflexivity.
Defined.

Lemma float_ltb_irrefl (x : float) : (x <? x)%float = false.
Proof.
  rewrite ltb_spec. unfold SFltb.
  pose proof (SFcompare_antisym (Prim2SF x) (Prim2SF x)) as H.
  destruct (SFcompare (Prim2SF x) (Prim2SF x)) as [[| |]|]; try reflexivity.
  discriminate H.
Qed.

Lemma cmp_string_loop_self (byte_cmp : ascii -> ascii -> bool) (len_cmp : bool)
    (p : string) :
  p <> "" ->
  cmp_string_loop byte_cmp len_cmp (String.length p) (String.length p) 0 p p = None.
Proof.
  intros Hne.
  assert (Hp : (0 < String.length p)%nat)
    by (destruct p; [now elim Hne | cbn; lia]).
  pose proof (cmp_string_loop_prefix byte_cmp len_cmp _ _ p Hp Hp 0 "" "") as H.
  rewrite !string_app_nil_r in H. rewrite H.
  apply cmp_string_loop_end; auto.
Qed.

(** No value is strictly less or greater than itself, except an Error: when
    [lt(a,a)] or [gt(a,a)] returns, it returns false for every value that is
    not an Error, and for an Error it returns what [eq] returns on the
    payload with itself, which is true for an equal payload. *)
Theorem strict_order_on_itself :
  forall (a : NootValue) (w : World) (r : bool),
    noot_lt a a w = Ret (VBool r) w \/ noot_gt a a w = Ret (VBool r) w ->
    match a with
    | VError inner => noot_eq inner inner w = Ret (VBool r) w
    | _ => r = false
    end.
Proof.
  intros a w r H.
  assert (Himpl : noot_lt_impl a a w = Ret r w \/ noot_gt_impl a a w = Ret r w).
  { destruct H as [H|H]; [left|right].
    - unfold noot_lt, bind in H.
      destruct (noot_lt_impl a a w) as [l w1| | |]; try discriminate H.
      cbn in H. now injection H as -> ->.
    - unfold noot_gt, bind in H.
      destruct (noot_gt_impl a a w) as [l w1| | |]; try discriminate H.
      cbn in H. now injection H as -> ->. }
  clear H.
  destruct a as [|x|x|x|s|h t|d l r'|f|c f|x];
    destruct Himpl as [H|H]; cbn [noot_lt_impl noot_gt_impl type_of] in H;
    returned_cases H;
    try apply Z.ltb_irrefl;
    try apply float_ltb_irrefl;
    try apply N.ltb_irrefl;
    try (unfold noot_eq; rewrite H; reflexivity).
  - destruct s as [|c s]; [cbn in H; congruence|].
    rewrite cmp_string_loop_self in H by discriminate. discriminate H.
  - destruct s as [|c s]; [cbn in H; congruence|].
    rewrite cmp_string_loop_self in H by discriminate. discriminate H.
Qed.

Lemma strict_order_on_itself_witness :
  noot_eq (VInt 1) (VInt 1) w0 = Ret (VBool true) w0.
Proof.
  apply (strict_order_on_itself (VError (VInt 1)) w0 true).
  left. reflexivity.
Defined.

(** ** Logical not and truthiness *)

(** Applying logical not twice gives the truthiness that [not] uses: a Bool
    gives itself, Nil gives false, every other value gives true.  This is the
    truthiness of the assertion except on Errors: [not] takes an Error for
    true, the assertion takes it for false. *)
Theorem double_not_truthiness :
  forall (v : NootValue) (w : World),
    exists once : NootValue,
      noot_not 1 [v] w = Ret once w
      /\ noot_not 1 [once] w
         = Ret (VBool (match v with VError _ => true | _ => noot_is_true v end)) w
      /\ (forall inner : NootValue, noot_is_true (VError inner) = false).
Proof.
  intros v w. exists (VBool (not_table v)).
  split; [destruct v; reflexivity|].
  split; [|reflexivity].
  destruct v as [|b| | | | | | | |]; try reflexivity.
  destruct b; reflexivity.
Qed.
